(** * FFGUtils: the [Color] class of [src/lib/colors.ts]

    A shallow embedding of the colour value type: the parameter resolver
    ([parseParameters]), the two static conversions
    ([getColorValueFromRGB], [getColorValueFromHSL]), the cached [rgb] and
    [hsl] views and the channel setters, together with [fmath] ([clamp],
    [randInt], [randFloat], [roundTo]) and the arithmetic of the two
    vector classes.

    JavaScript numbers are modelled by [number]: [NaN], the two infinities
    and the finite values, the latter as exact rationals.  The model is
    exact wherever every intermediate value is representable as a double
    (all integer paths, hexadecimal parsing, and the concrete HSL
    evaluations below); rounding error of binary64 arithmetic and the sign
    of zero are not represented.  [console.log] in [getColorValueFromRGB]
    writes to the console only and is left out. *)

From Stdlib Require Import ZArith QArith Qabs Qround Qminmax.
From Stdlib Require Import String Ascii List Bool Lia Lqa DecimalString.
Import ListNotations.

Local Open Scope Z_scope.

(** ** The host language: numbers, bit operators, strings *)

Module JS.

(** A value of type [number]. *)
Inductive number : Type :=
| NaN
| NegInfinity
| Num (q : Q)
| Infinity.

Definition ofZ (z : Z) : number := Num (inject_Z z).

(** [undefined] is [None]: an optional parameter, or the result of
    [pop] on an empty array. *)
Definition optional (A : Type) : Type := option A.

(** Ordering of two numbers; [None] when either is [NaN]. *)
Definition compare (x y : number) : option comparison :=
  match x, y with
  | NaN, _ | _, NaN => None
  | NegInfinity, NegInfinity => Some Eq
  | NegInfinity, _ => Some Lt
  | _, NegInfinity => Some Gt
  | Infinity, Infinity => Some Eq
  | Infinity, _ => Some Gt
  | _, Infinity => Some Lt
  | Num p, Num q => Some (p ?= q)%Q
  end.

(** [x == y] on numbers. *)
Definition eqb (x y : number) : bool :=
  match compare x y with Some Eq => true | _ => false end.

(** [x != y]. *)
Definition neqb (x y : number) : bool := negb (eqb x y).

(** [x < y]. *)
Definition ltb (x y : number) : bool :=
  match compare x y with Some Lt => true | _ => false end.

(** [x > y]. *)
Definition gtb (x y : number) : bool :=
  match compare x y with Some Gt => true | _ => false end.

(** [x <= y]. *)
Definition leb (x y : number) : bool :=
  match compare x y with Some Lt | Some Eq => true | _ => false end.

(** [Math.min(x, y)]. *)
Definition min (x y : number) : number :=
  match compare x y with
  | None => NaN
  | Some Gt => y
  | Some _ => x
  end.

(** [Math.max(x, y)]. *)
Definition max (x y : number) : number :=
  match compare x y with
  | None => NaN
  | Some Lt => y
  | Some _ => x
  end.

(** [-x]. *)
Definition neg (x : number) : number :=
  match x with
  | NaN => NaN
  | NegInfinity => Infinity
  | Num q => Num (- q)
  | Infinity => NegInfinity
  end.

(** [Math.abs(x)]. *)
Definition abs (x : number) : number :=
  match x with
  | NaN => NaN
  | NegInfinity | Infinity => Infinity
  | Num q => Num (Qabs q)
  end.

(** [x + y]. *)
Definition add (x y : number) : number :=
  match x, y with
  | NaN, _ | _, NaN => NaN
  | Infinity, NegInfinity | NegInfinity, Infinity => NaN
  | Infinity, _ | _, Infinity => Infinity
  | NegInfinity, _ | _, NegInfinity => NegInfinity
  | Num p, Num q => Num (p + q)
  end.

(** [x - y]. *)
Definition sub (x y : number) : number := add x (neg y).

(** An infinity of the sign of [s], [NaN] when [s] is [Eq]. *)
Definition signedInfinity (s : comparison) : number :=
  match s with
  | Lt => NegInfinity
  | Eq => NaN
  | Gt => Infinity
  end.

(** The sign of a number as its comparison with zero. *)
Definition sign (x : number) : option comparison := compare x (Num 0).

(** [x * y]. *)
Definition mul (x y : number) : number :=
  match x, y with
  | Num p, Num q => Num (p * q)
  | _, _ =>
      match sign x, sign y with
      | Some sx, Some sy =>
          match sx, sy with
          | Eq, _ | _, Eq => NaN
          | Lt, Lt | Gt, Gt => Infinity
          | _, _ => NegInfinity
          end
      | _, _ => NaN
      end
  end.

(** [x / y]; a zero divisor counts as positive zero. *)
Definition div (x y : number) : number :=
  match x, y with
  | NaN, _ | _, NaN => NaN
  | Num p, Num q =>
      if Qeq_bool q 0 then signedInfinity (p ?= 0)%Q else Num (p / q)
  | Num _, _ => Num 0
  | _, Num q => if Qle_bool 0 q then x else neg x
  | _, _ => NaN
  end.

(** Rounding toward zero. *)
Definition Qtrunc (q : Q) : Z := Z.quot (Qnum q) (Z.pos (Qden q)).

(** [x % y]: the remainder has the sign of the dividend. *)
Definition rem (x y : number) : number :=
  match x, y with
  | Num p, Num q =>
      if Qeq_bool q 0 then NaN
      else Num (p - q * inject_Z (Qtrunc (p / q)))
  | Num p, (Infinity | NegInfinity) => Num p
  | _, _ => NaN
  end.

(** [Math.round(x)]: the nearest integer, a tie going up. *)
Definition round (x : number) : number :=
  match x with
  | Num q => ofZ (Qfloor (q + (1 # 2)))
  | _ => x
  end.

(** [+x.toFixed(1)]: [x] rounded to one decimal place, a tie going away
    from zero, and read back as a number; from 10^21 on [toFixed]
    prints the number as it is. *)
Definition toFixed1 (x : number) : number :=
  match x with
  | Num q =>
      if Qle_bool (inject_Z (10 ^ 21)) (Qabs q) then Num q
      else
        let n := Qfloor (Qabs q * 10 + (1 # 2)) in
        let r := Qred (inject_Z n / 10) in
        Num (if Qle_bool 0 q then r else - r)
  | _ => x
  end.

(** An integer wrapped to the signed 32-bit range. *)
Definition wrap32 (z : Z) : Z :=
  let m := z mod 2 ^ 32 in
  if m <? 2 ^ 31 then m else m - 2 ^ 32.

(** [ToInt32]: what a bit operator sees of its operand. *)
Definition ToInt32 (x : number) : Z :=
  match x with
  | Num q => wrap32 (Qtrunc q)
  | _ => 0
  end.

(** [x << k]. *)
Definition shl (x : number) (k : Z) : number :=
  ofZ (wrap32 (Z.shiftl (ToInt32 x) (Z.land k 31))).

(** [x >> k], sign-propagating. *)
Definition shr (x : number) (k : Z) : number :=
  ofZ (Z.shiftr (ToInt32 x) (Z.land k 31)).

(** [x | y]. *)
Definition bor (x y : number) : number :=
  ofZ (Z.lor (ToInt32 x) (ToInt32 y)).

(** [x & y]. *)
Definition band (x y : number) : number :=
  ofZ (Z.land (ToInt32 x) (ToInt32 y)).

(** Whether [!x] holds for an optional number: [undefined], [NaN] and
    zero are falsy. *)
Definition falsy (x : optional number) : bool :=
  match x with
  | None => true
  | Some NaN => true
  | Some (Num q) => Qeq_bool q 0
  | Some _ => false
  end.

(** *** Strings, as sequences of 8-bit code units *)

(** [s.startsWith(p)]. *)
Definition startsWith (p s : string) : bool := String.prefix p s.

(** [s.replace(c, "")] for a one-character pattern: the first occurrence
    of [c] is removed. *)
Fixpoint replaceFirst (c : ascii) (s : string) : string :=
  match s with
  | EmptyString => EmptyString
  | String d rest =>
      if Ascii.eqb c d then rest else String d (replaceFirst c rest)
  end.

(** [s.split("")]. *)
Definition split (s : string) : list ascii := list_ascii_of_string s.

(** [arr.join("")]. *)
Definition join (arr : list ascii) : string := string_of_list_ascii arr.

(** [arr.pop()]: the last element ([undefined] on an empty array) and
    the array it leaves. *)
Definition pop (arr : list ascii) : optional ascii * list ascii :=
  match rev arr with
  | [] => (None, [])
  | x :: front => (Some x, rev front)
  end.

(** A popped element inside a template literal. *)
Definition charToString (v : optional ascii) : string :=
  match v with
  | None => "undefined"
  | Some ch => String ch EmptyString
  end.

(** The value of a digit in the given radix. *)
Definition digitValue (radix : Z) (ch : ascii) : option Z :=
  let n := Z.of_nat (nat_of_ascii ch) in
  let v :=
    if (48 <=? n) && (n <=? 57) then Some (n - 48)
    else if (97 <=? n) && (n <=? 122) then Some (n - 87)
    else if (65 <=? n) && (n <=? 90) then Some (n - 55)
    else None in
  match v with
  | Some d => if d <? radix then Some d else None
  | None => None
  end.

(** The digits at the front of [s], most significant first, folded into
    [acc]; [seen] records whether any digit was read. *)
Fixpoint parseDigits (radix : Z) (s : string) (acc : Z) (seen : bool)
  : option Z :=
  match s with
  | EmptyString => if seen then Some acc else None
  | String ch rest =>
      match digitValue radix ch with
      | Some d => parseDigits radix rest (acc * radix + d) true
      | None => if seen then Some acc else None
      end
  end.

Definition isWhiteSpace (ch : ascii) : bool :=
  let n := nat_of_ascii ch in
  (Nat.leb 9 n && Nat.leb n 13) || Nat.eqb n 32 || Nat.eqb n 160.

Fixpoint trimStart (s : string) : string :=
  match s with
  | String ch rest => if isWhiteSpace ch then trimStart rest else s
  | EmptyString => s
  end.

(** [parseInt(s)] without a radix argument: leading white space, a
    sign, a [0x] prefix selecting radix 16, then the longest run of
    digits; [NaN] when no digit follows. *)
Definition parseInt (s : string) : number :=
  let s := trimStart s in
  let '(negative, s) :=
    match s with
    | String "-" rest => (true, rest)
    | String "+" rest => (false, rest)
    | _ => (false, s)
    end in
  let '(radix, s) :=
    match s with
    | String "0" (String "x" rest) => (16, rest)
    | String "0" (String "X" rest) => (16, rest)
    | _ => (10, s)
    end in
  match parseDigits radix s 0 false with
  | Some v => ofZ (if negative then - v else v)
  | None => NaN
  end.

End JS.

Import JS.

(** ** [fmath]: the numeric helper the colour code imports *)

(** [clamp(v, max, min = 0)]. *)
Definition clamp (v max : number) (min : number) : number :=
  JS.max min (JS.min v max).

(** The default of [clamp]'s third parameter. *)
Definition clampMinDefault : number := ofZ 0.

(** ** [colors.ts]: the interfaces *)

(** [hexadecimal | number], the type of the constructor's first argument. *)
Inductive hexadecimalOrNumber : Type :=
| Hexadecimal (s : string)
| Number (n : number).

Module RGBObject.
Record t : Type := mk {
  color : optional number;
  red : number;
  green : number;
  blue : number
}.
End RGBObject.

Module ColorObject.
Record t : Type := mk {
  color : number;
  alpha : number
}.
End ColorObject.

Module HSLObject.
Record t : Type := mk {
  color : optional number;
  hue : number;
  saturation : number;
  lightness : number
}.
End HSLObject.

Inductive ColorMode : Type :=
| RGB
| HSL.

(** What a call can throw: [new Error(message)], or the engine's
    [RangeError] when the call stack is exhausted. *)
Inductive exception : Type :=
| Error (message : string)
| RangeError.

(** The outcome of a call that may throw. *)
Inductive completion (A : Type) : Type :=
| Normal (value : A)
| Throw (e : exception).

Arguments Normal {A} value.
Arguments Throw {A} e.

Definition InvalidFormat : exception :=
  Error "Invalid Hexadecimal String Provided.".

(** ** The class [Color] *)

Module Color.

(** The instance fields [c], [a], [lhsl], [lrgb]. *)
Record t : Type := mk {
  c : number;
  a : number;
  lhsl : optional HSLObject.t;
  lrgb : optional RGBObject.t
}.

(** *** Static conversions *)

(** [r << 16 | g << 8 | b]. *)
Definition pack (r g b : number) : number :=
  bor (bor (shl r 16) (shl g 8)) b.

Definition getColorValueFromRGB (r g b a : number) : ColorObject.t :=
  let r := clamp r (ofZ 255) clampMinDefault in
  let g := clamp g (ofZ 255) clampMinDefault in
  let b := clamp b (ofZ 255) clampMinDefault in
  let a := clamp a (ofZ 255) clampMinDefault in
  ColorObject.mk (pack r g b) a.

(** The chain of [if]/[else if] of [getColorValueFromHSL], with the
    comparisons as the source writes them; a triple left untouched keeps
    its initial zeros. *)
Definition sextant (h c x : number) : number * number * number :=
  let zero := ofZ 0 in
  if leb (ofZ 0) h && gtb h (ofZ 60) then (c, x, zero)
  else if leb (ofZ 60) h && gtb h (ofZ 120) then (x, c, zero)
  else if leb (ofZ 120) h && gtb h (ofZ 180) then (zero, c, x)
  else if leb (ofZ 180) h && gtb h (ofZ 240) then (zero, x, c)
  else if leb (ofZ 300) h && gtb h (ofZ 360) then (c, zero, x)
  else (zero, zero, zero).

(** The parameter [a] defaults to 255 when it is [undefined]. *)
Definition getColorValueFromHSL (h s l : number) (a : optional number)
  : ColorObject.t :=
  let a := match a with Some v => v | None => ofZ 255 end in
  let h := clamp h (ofZ 360) clampMinDefault in
  let s := div (clamp s (ofZ 100) clampMinDefault) (ofZ 100) in
  let l := div (clamp l (ofZ 100) clampMinDefault) (ofZ 100) in
  let a := clamp a (ofZ 255) clampMinDefault in
  let c := mul (sub (ofZ 1) (abs (sub (mul (ofZ 2) l) (ofZ 1)))) s in
  let x :=
    mul c (sub (ofZ 1) (abs (sub (rem (div h (ofZ 60)) (ofZ 2)) (ofZ 1)))) in
  let m := sub l (div c (ofZ 2)) in
  let '(r, g, b) := sextant h c x in
  let r := mul (add r m) (ofZ 255) in
  let g := mul (add g m) (ofZ 255) in
  let b := mul (add b m) (ofZ 255) in
  ColorObject.mk (pack r g b) a.

(** *** The derived views *)

(** [get color()]. *)
Definition get_color (this : t) : number := c this.

(** [get alpha()]. *)
Definition get_alpha (this : t) : number := a this.

(** [o.color != v] where [o.color] may be [undefined]. *)
Definition colorDiffers (recorded : optional number) (v : number) : bool :=
  match recorded with
  | None => true
  | Some u => neqb u v
  end.

(** The object literal built by [get rgb()]. *)
Definition decodeRGB (color : number) : RGBObject.t :=
  RGBObject.mk (Some color)
    (shr (band color (ofZ 0xff0000)) 16)
    (shr (band color (ofZ 0xff00)) 8)
    (band color (ofZ 0xff)).

(** [get rgb()]: the view and the instance, whose [lrgb] the read may
    have refilled. *)
Definition get_rgb (this : t) : RGBObject.t * t :=
  let refill :=
    let o := decodeRGB (get_color this) in
    (o, mk (c this) (a this) (lhsl this) (Some o)) in
  match lrgb this with
  | None => refill
  | Some o =>
      if colorDiffers (RGBObject.color o) (get_color this) then refill
      else (o, this)
  end.

Definition get_red (this : t) : number * t :=
  let '(o, this) := get_rgb this in (RGBObject.red o, this).

Definition get_green (this : t) : number * t :=
  let '(o, this) := get_rgb this in (RGBObject.green o, this).

Definition get_blue (this : t) : number * t :=
  let '(o, this) := get_rgb this in (RGBObject.blue o, this).

(** The body of the [if] of [get hsl()], from the three channels read
    through [this.red], [this.green], [this.blue]. *)
Definition encodeHSL (color red green blue : number) : HSLObject.t :=
  let r := div red (ofZ 255) in
  let g := div green (ofZ 255) in
  let b := div blue (ofZ 255) in
  let cmin := JS.min (JS.min r g) b in
  let cmax := JS.max (JS.max r g) b in
  let delta := sub cmax cmin in
  let h :=
    if eqb delta (ofZ 0) then ofZ 0
    else if eqb cmax r then rem (div (sub g b) delta) (ofZ 6)
    else if eqb cmax g then add (div (sub b r) delta) (ofZ 2)
    else add (div (sub r g) delta) (ofZ 4) in
  let h := round (mul h (ofZ 60)) in
  let h := if ltb h (ofZ 0) then add h (ofZ 360) else h in
  let l := div (add cmax cmin) (ofZ 2) in
  let s :=
    if eqb delta (ofZ 0) then ofZ 0
    else div delta (sub (ofZ 1) (abs (sub (mul (ofZ 2) l) (ofZ 1)))) in
  let s := toFixed1 (mul s (ofZ 100)) in
  let l := toFixed1 (mul l (ofZ 100)) in
  HSLObject.mk (Some color) h s l.

(** [get hsl()]: a refill reads the three channels one after the other,
    each through [get rgb()]. *)
Definition get_hsl (this : t) : HSLObject.t * t :=
  let refill :=
    let '(red, this) := get_red this in
    let '(green, this) := get_green this in
    let '(blue, this) := get_blue this in
    let o := encodeHSL (get_color this) red green blue in
    (o, mk (c this) (a this) (Some o) (lrgb this)) in
  match lhsl this with
  | None => refill
  | Some o =>
      if colorDiffers (HSLObject.color o) (get_color this) then refill
      else (o, this)
  end.

Definition get_hue (this : t) : number * t :=
  let '(o, this) := get_hsl this in (HSLObject.hue o, this).

Definition get_saturation (this : t) : number * t :=
  let '(o, this) := get_hsl this in (HSLObject.saturation o, this).

Definition get_lightness (this : t) : number * t :=
  let '(o, this) := get_hsl this in (HSLObject.lightness o, this).

(** *** The setters

    The arguments of the conversion are evaluated left to right, then
    [this.c] is assigned. *)

Definition assign_c (this : t) (color : number) : t :=
  mk color (a this) (lhsl this) (lrgb this).

Definition set_red (red : number) (this : t) : t :=
  let '(green, this) := get_green this in
  let '(blue, this) := get_blue this in
  let alpha := get_alpha this in
  assign_c this (ColorObject.color (getColorValueFromRGB red green blue alpha)).

Definition set_green (green : number) (this : t) : t :=
  let '(red, this) := get_red this in
  let '(blue, this) := get_blue this in
  let alpha := get_alpha this in
  assign_c this (ColorObject.color (getColorValueFromRGB red green blue alpha)).

Definition set_blue (blue : number) (this : t) : t :=
  let '(red, this) := get_red this in
  let '(green, this) := get_green this in
  let alpha := get_alpha this in
  assign_c this (ColorObject.color (getColorValueFromRGB red green blue alpha)).

Definition set_hue (hue : number) (this : t) : t :=
  let '(saturation, this) := get_saturation this in
  let '(lightness, this) := get_lightness this in
  let alpha := get_alpha this in
  assign_c this
    (ColorObject.color
       (getColorValueFromHSL hue saturation lightness (Some alpha))).

Definition set_saturation (saturation : number) (this : t) : t :=
  let '(hue, this) := get_hue this in
  let '(lightness, this) := get_lightness this in
  let alpha := get_alpha this in
  assign_c this
    (ColorObject.color
       (getColorValueFromHSL hue saturation lightness (Some alpha))).

Definition set_lightness (lightness : number) (this : t) : t :=
  let '(hue, this) := get_hue this in
  let '(saturation, this) := get_saturation this in
  let alpha := get_alpha this in
  assign_c this
    (ColorObject.color
       (getColorValueFromHSL hue saturation lightness (Some alpha))).

(** [set alpha(alpha) { this.alpha = alpha; }]: the assignment is to the
    accessor [alpha], so the body calls the setter it belongs to.
    [stack] is the number of frames the engine still has room for; when
    none is left the call throws [RangeError]. *)
Fixpoint set_alpha (stack : nat) (alpha : number) (this : t)
  : completion t :=
  match stack with
  | O => Throw RangeError
  | S stack => set_alpha stack alpha this
  end.

(** *** The parameter resolver *)

Section Resolver.

(** The host's conversion of a finite number to a string, as a
    template literal applies it. *)
Variable NumberToString : Q -> string.

(** [`${alpha}`] for the optional parameter [alpha]. *)
Definition template (alpha : optional number) : string :=
  match alpha with
  | None => "undefined"
  | Some NaN => "NaN"
  | Some Infinity => "Infinity"
  | Some NegInfinity => "-Infinity"
  | Some (Num q) => NumberToString q
  end.

(** [if (!x) x = d], after which [x] is a number. *)
Definition orDefault (x : optional number) (d : number) : number :=
  match x with
  | Some v => if JS.falsy x then d else v
  | None => d
  end.

(** From [if (!alpha) alpha = 255] to the end of [parseParameters]:
    the numeric triple resolved under the current colour mode. *)
Definition resolveTriple (colorMode : ColorMode) (a : number)
    (b c alpha : optional number) : ColorObject.t :=
  let alpha := orDefault alpha (ofZ 255) in
  match colorMode with
  | RGB =>
      let b := orDefault b a in
      let c := orDefault c a in
      getColorValueFromRGB a b c alpha
  | HSL =>
      let b := orDefault b (ofZ 50) in
      let c := orDefault c (ofZ 50) in
      getColorValueFromHSL a b c (Some alpha)
  end.

(** The string branch up to the two [parseInt] calls: the digits of
    the colour and the digits of the alpha byte. *)
Definition hexDigits (a : string) (len : nat) (alpha : optional number)
  : string * string :=
  let t := "ff"%string in
  if Nat.eqb len 3 || Nat.eqb len 4 then
    let arr := split a in
    let '(arr, t) :=
      if Nat.eqb len 4 then
        let '(_, arr) := pop arr in
        (arr, (template alpha ++ template alpha)%string)
      else (arr, t) in
    let a :=
      fold_left
        (fun (a : string) (val : ascii) =>
           (a ++ String val (String val EmptyString))%string)
        arr EmptyString in
    (a, t)
  else if Nat.eqb len 8 then
    let arr := split a in
    let '(t1, arr) := pop arr in
    let '(t2, arr) := pop arr in
    (join arr, (charToString t2 ++ charToString t1)%string)
  else (a, t).

(** The static [parseParameters]; [colorMode] is the value of
    [Color.colorMode] at the call. *)
Definition parseParameters (colorMode : ColorMode)
    (a : hexadecimalOrNumber) (b c alpha : optional number)
  : completion ColorObject.t :=
  match a with
  | Hexadecimal a =>
      let a := if startsWith "#" a then replaceFirst "#" a else a in
      let len := String.length a in
      if negb (Nat.eqb len 3) && negb (Nat.eqb len 4)
         && negb (Nat.eqb len 6) && negb (Nat.eqb len 8)
      then Throw InvalidFormat
      else
        let '(a, t) := hexDigits a len alpha in
        let a := parseInt ("0x" ++ a) in
        let alpha := parseInt ("0x" ++ t) in
        if JS.falsy b && JS.falsy c then Normal (ColorObject.mk a alpha)
        else Normal (resolveTriple colorMode a b c (Some alpha))
  | Number a => Normal (resolveTriple colorMode a b c alpha)
  end.

(** [new Color(a, b, c, d)]: the two cache fields start [undefined]. *)
Definition new (colorMode : ColorMode) (a : hexadecimalOrNumber)
    (b c d : optional number) : completion t :=
  match parseParameters colorMode a b c d with
  | Normal o =>
      Normal (mk (ColorObject.color o) (ColorObject.alpha o) None None)
  | Throw e => Throw e
  end.

(** [set hex(hex)]: only the [color] of the resolved pair is kept; a
    throw leaves the instance as it was. *)
Definition set_hex (colorMode : ColorMode) (hex : string) (this : t)
  : completion t :=
  match parseParameters colorMode (Hexadecimal hex) None None None with
  | Normal o => Normal (assign_c this (ColorObject.color o))
  | Throw e => Throw e
  end.

End Resolver.

End Color.

(** ** More of the host: [Math.floor] *)

Module Math.


End Math.

(** ** [fmath]: the other helpers

    [Math.random()] is the one source of non-determinism: the number it
    returns at the call is the argument [random].  [roundToDec] needs
    [Math.pow] at an arbitrary exponent and is left out. *)




(** ** The vector classes

    Every method that takes [number | Vector] copies the components it
    needs into locals (through [parseParameters]) before it writes to
    [this], so a call such as [v.add(v)] reads [v] as it was; the methods
    are functions from the instance before the call to the instance after
    it.  [magnitude], [normalize] and [normalized] need [Math.sqrt] and are
    left out, as is [toString]. *)

Module Point.
Record t : Type := mk {
  x : number;
  y : number;
  z : optional number
}.
End Point.

(** [b ? b : a] for an optional number [b]. *)
Definition orElse (b : optional number) (a : number) : number :=
  match b with
  | Some v => if JS.falsy b then a else v
  | None => a
  end.

Module Vector2.

Record t : Type := mk {
  x : number;
  y : number
}.

(** [number | Vector2]. *)
Inductive numberOrVector2 : Type :=
| Scalar (n : number)
| Vector (v : t).

(** The static [parseParameters]; the instance method only forwards to
    it. *)
Definition parseParameters (a : numberOrVector2) (b : optional number)
  : Point.t :=
  match a with
  | Vector a => Point.mk (x a) (y a) None
  | Scalar a => Point.mk a (orElse b a) None
  end.

(** [new Vector2(a = 0, b)]. *)
Definition new (a : optional numberOrVector2) (b : optional number) : t :=
  let a := match a with Some v => v | None => Scalar (ofZ 0) end in
  let p := parseParameters a b in
  mk (Point.x p) (Point.y p).

(** [get sqrMagnitude()]. *)
Definition sqrMagnitude (this : t) : number :=
  JS.add (JS.mul (x this) (x this)) (JS.mul (y this) (y this)).

Definition set (x y : number) (this : t) : t := mk x y.

Definition sub (a : numberOrVector2) (b : optional number) (this : t) : t :=
  let p := parseParameters a b in
  mk (JS.sub (x this) (Point.x p)) (JS.sub (y this) (Point.y p)).

Definition add (a : numberOrVector2) (b : optional number) (this : t) : t :=
  let p := parseParameters a b in
  mk (JS.add (x this) (Point.x p)) (JS.add (y this) (Point.y p)).

Definition mult (a : numberOrVector2) (b : optional number) (this : t) : t :=
  let p := parseParameters a b in
  mk (JS.mul (x this) (Point.x p)) (JS.mul (y this) (Point.y p)).

Definition div (a : numberOrVector2) (b : optional number) (this : t) : t :=
  let p := parseParameters a b in
  mk (JS.div (x this) (Point.x p)) (JS.div (y this) (Point.y p)).

(** [this.equals(other)]; on two numbers [===] is [==]. *)
Definition equals (other : t) (this : t) : bool :=
  JS.eqb (x this) (x other) && JS.eqb (y this) (y other).

(** The static getters [up], [down], [left], [right]. *)
Definition up : t := new (Some (Scalar (ofZ 0))) (Some (ofZ (-1))).
Definition down : t := new (Some (Scalar (ofZ 0))) (Some (ofZ 1)).
Definition left : t := new (Some (Scalar (ofZ (-1)))) (Some (ofZ 0)).
Definition right : t := new (Some (Scalar (ofZ 1))) (Some (ofZ 0)).

(** The static [add], [sub], [mult], [div]: a copy of [a] is built and
    changed. *)
Definition static_add (a b : t) : t :=
  add (Vector b) None (new (Some (Vector a)) None).

Definition static_sub (a b : t) : t :=
  sub (Vector b) None (new (Some (Vector a)) None).

Definition static_mult (a b : t) : t :=
  mult (Vector b) None (new (Some (Vector a)) None).

Definition static_div (a b : t) : t :=
  div (Vector b) None (new (Some (Vector a)) None).

End Vector2.

Module Vector3.

Record t : Type := mk {
  x : number;
  y : number;
  z : number
}.

(** [number | Vector3]. *)
Inductive numberOrVector3 : Type :=
| Scalar (n : number)
| Vector (v : t).

Definition parseParameters (a : numberOrVector3) (b c : optional number)
  : Point.t :=
  match a with
  | Vector a => Point.mk (x a) (y a) (Some (z a))
  | Scalar a => Point.mk a (orElse b a) (Some (orElse c a))
  end.

(** [z as number] for the [z] of a point; [parseParameters] always sets
    it. *)
Definition zAsNumber (p : Point.t) : number :=
  match Point.z p with
  | Some v => v
  | None => NaN
  end.

(** [new Vector3(a = 0, b, c)]. *)
Definition new (a : optional numberOrVector3) (b c : optional number) : t :=
  let a := match a with Some v => v | None => Scalar (ofZ 0) end in
  let p := parseParameters a b c in
  mk (Point.x p) (Point.y p) (zAsNumber p).

(** [get sqrMagnitude()]. *)
Definition sqrMagnitude (this : t) : number :=
  JS.add (JS.add (JS.mul (x this) (x this)) (JS.mul (y this) (y this)))
    (JS.mul (z this) (z this)).

Definition div (a : numberOrVector3) (b c : optional number) (this : t) : t :=
  let p := parseParameters a b c in
  mk (JS.div (x this) (Point.x p)) (JS.div (y this) (Point.y p))
    (JS.div (z this) (zAsNumber p)).

Definition mult (a : numberOrVector3) (b c : optional number) (this : t) : t :=
  let p := parseParameters a b c in
  mk (JS.mul (x this) (Point.x p)) (JS.mul (y this) (Point.y p))
    (JS.mul (z this) (zAsNumber p)).

Definition add (a : numberOrVector3) (b c : optional number) (this : t) : t :=
  let p := parseParameters a b c in
  mk (JS.add (x this) (Point.x p)) (JS.add (y this) (Point.y p))
    (JS.add (z this) (zAsNumber p)).

Definition sub (a : numberOrVector3) (b c : optional number) (this : t) : t :=
  let p := parseParameters a b c in
  mk (JS.sub (x this) (Point.x p)) (JS.sub (y this) (Point.y p))
    (JS.sub (z this) (zAsNumber p)).

Definition set (x y z : number) (this : t) : t := mk x y z.

(** [this.equals(other)]. *)
Definition equals (other : t) (this : t) : bool :=
  JS.eqb (x this) (x other) && JS.eqb (y this) (y other)
  && JS.eqb (z this) (z other).

Definition toArray (this : t) : list number := [x this; y this; z this].

(** The static getters. *)
Definition up : t :=
  new (Some (Scalar (ofZ 0))) (Some (ofZ (-1))) (Some (ofZ 0)).
Definition down : t :=
  new (Some (Scalar (ofZ 0))) (Some (ofZ 1)) (Some (ofZ 0)).
Definition left : t :=
  new (Some (Scalar (ofZ (-1)))) (Some (ofZ 0)) (Some (ofZ 0)).
Definition right : t :=
  new (Some (Scalar (ofZ 1))) (Some (ofZ 0)) (Some (ofZ 0)).
Definition back : t :=
  new (Some (Scalar (ofZ 0))) (Some (ofZ 0)) (Some (ofZ (-1))).
Definition forth : t :=
  new (Some (Scalar (ofZ 0))) (Some (ofZ 0)) (Some (ofZ 1)).

Definition static_div (a b : t) : t :=
  div (Vector b) None None (new (Some (Vector a)) None None).

Definition static_mult (a b : t) : t :=
  mult (Vector b) None None (new (Some (Vector a)) None None).

Definition static_sub (a b : t) : t :=
  sub (Vector b) None None (new (Some (Vector a)) None None).

Definition static_add (a b : t) : t :=
  add (Vector b) None None (new (Some (Vector a)) None None).

End Vector3.

(** ** Vocabulary of the statements *)

(** The packed value of three channels given as integers. *)
Definition rgb24 (r g b : Z) : Z := r * 65536 + g * 256 + b.

(** The byte written by two hexadecimal digits. *)
Definition byte (hi lo : Z) : Z := 16 * hi + lo.

(** A number that a channel can hold after [clamp]: [NaN], or a finite
    value between 0 and [M]. *)
Definition within (M : Z) (n : number) : Prop :=
  n = NaN \/ exists q, n = Num q /\ (0 <= q)%Q /\ (q <= inject_Z M)%Q.

(** [NaN], or a finite value between 0 and 1. *)
Definition unit01 (n : number) : Prop :=
  n = NaN \/ exists q, n = Num q /\ (0 <= q)%Q /\ (q <= 1)%Q.

(** [NaN] or an integer: what [parseInt] and the bit operators return. *)
Definition integral (n : number) : Prop :=
  n = NaN \/ exists z, n = ofZ z.

(** An unsigned 24-bit integer, together with its three byte fields as
    [get rgb()] extracts them. *)
Definition packedBytes (n : number) : Prop :=
  exists r g b,
    0 <= r <= 255 /\ 0 <= g <= 255 /\ 0 <= b <= 255 /\
    n = ofZ (rgb24 r g b) /\ 0 <= rgb24 r g b < 2 ^ 24 /\
    Color.decodeRGB n = RGBObject.mk (Some n) (ofZ r) (ofZ g) (ofZ b).

(** The HSL view of a packed value: what a refill of [get hsl()] stores. *)
Definition hslOf (color : number) : HSLObject.t :=
  let o := Color.decodeRGB color in
  Color.encodeHSL color (RGBObject.red o) (RGBObject.green o) (RGBObject.blue o).

(** Each cached view is the view of the packed value recorded in it. *)
Definition coherent (this : Color.t) : Prop :=
  integral (Color.c this) /\
  (forall o, Color.lrgb this = Some o ->
             exists u, integral u /\ o = Color.decodeRGB u) /\
  (forall o, Color.lhsl this = Some o ->
             exists u, integral u /\ o = hslOf u).

(** The instances a program can hold: built by the constructor, then read
    and written through the accessors, under whatever colour mode is
    current at each call.  A caller that writes into a view object it was
    handed is outside this relation. *)
Inductive reachable (NumberToString : Q -> string) : Color.t -> Prop :=
| reach_new colorMode a b c d this :
    Color.new NumberToString colorMode a b c d = Normal this ->
    reachable NumberToString this
| reach_get_rgb this :
    reachable NumberToString this ->
    reachable NumberToString (snd (Color.get_rgb this))
| reach_get_red this :
    reachable NumberToString this ->
    reachable NumberToString (snd (Color.get_red this))
| reach_get_green this :
    reachable NumberToString this ->
    reachable NumberToString (snd (Color.get_green this))
| reach_get_blue this :
    reachable NumberToString this ->
    reachable NumberToString (snd (Color.get_blue this))
| reach_get_hsl this :
    reachable NumberToString this ->
    reachable NumberToString (snd (Color.get_hsl this))
| reach_get_hue this :
    reachable NumberToString this ->
    reachable NumberToString (snd (Color.get_hue this))
| reach_get_saturation this :
    reachable NumberToString this ->
    reachable NumberToString (snd (Color.get_saturation this))
| reach_get_lightness this :
    reachable NumberToString this ->
    reachable NumberToString (snd (Color.get_lightness this))
| reach_set_red v this :
    reachable NumberToString this ->
    reachable NumberToString (Color.set_red v this)
| reach_set_green v this :
    reachable NumberToString this ->
    reachable NumberToString (Color.set_green v this)
| reach_set_blue v this :
    reachable NumberToString this ->
    reachable NumberToString (Color.set_blue v this)
| reach_set_hue v this :
    reachable NumberToString this ->
    reachable NumberToString (Color.set_hue v this)
| reach_set_saturation v this :
    reachable NumberToString this ->
    reachable NumberToString (Color.set_saturation v this)
| reach_set_lightness v this :
    reachable NumberToString this ->
    reachable NumberToString (Color.set_lightness v this)
| reach_set_alpha stack v this this' :
    reachable NumberToString this ->
    Color.set_alpha stack v this = Normal this' ->
    reachable NumberToString this'
| reach_set_hex colorMode hex this this' :
    reachable NumberToString this ->
    Color.set_hex NumberToString colorMode hex this = Normal this' ->
    reachable NumberToString this'.

(** A string without its optional leading [#]. *)
Definition stripped (s : string) : string :=
  match s with
  | String "#" rest => rest
  | _ => s
  end.

(** The digit counts the resolver accepts. *)
Definition validLength (n : nat) : bool :=
  Nat.eqb n 3 || Nat.eqb n 4 || Nat.eqb n 6 || Nat.eqb n 8.

(** The decimal digits of an integer, with a minus sign when negative. *)
Definition decimalString (z : Z) : string :=
  NilZero.string_of_int (Z.to_int z).

(** A host conversion for closed examples.  On an integer below 10^21 in
    magnitude it is the host's own: the integer's decimal digits.  The
    examples apply it to integers only. *)
Definition integerHost (q : Q) : string := decimalString (Qfloor q).

(** The instance [new Color(0)] builds under the RGB mode. *)
Definition black : Color.t := Color.mk (ofZ 0) (ofZ 255) None None.

(** [black] after a read of [hsl] and the assignment [red = 255]. *)
Definition blackThenRed : Color.t :=
  Color.set_red (ofZ 255) (snd (Color.get_hsl black)).

(** * Properties *)

(** ** Integers behind numbers *)

Lemma wrap32_small z : - 2 ^ 31 <= z < 2 ^ 31 -> wrap32 z = z.
Proof.
  intros H. unfold wrap32. cbv zeta.
  destruct (Z.ltb_spec (z mod 2 ^ 32) (2 ^ 31)); Z.div_mod_to_equations; lia.
Qed.

Lemma wrap32_range z : - 2 ^ 31 <= wrap32 z < 2 ^ 31.
Proof.
  unfold wrap32. cbv zeta.
  destruct (Z.ltb_spec (z mod 2 ^ 32) (2 ^ 31)); Z.div_mod_to_equations; lia.
Qed.

Lemma Qtrunc_inject_Z z : Qtrunc (inject_Z z) = z.
Proof. unfold Qtrunc, inject_Z. simpl. apply Z.quot_1_r. Qed.

Lemma ToInt32_ofZ z : - 2 ^ 31 <= z < 2 ^ 31 -> ToInt32 (ofZ z) = z.
Proof.
  intros H. unfold ToInt32, ofZ. rewrite Qtrunc_inject_Z.
  now apply wrap32_small.
Qed.

Lemma Qtrunc_bounds (q : Q) (M : Z) :
  (0 <= q)%Q -> (q <= inject_Z M)%Q -> 0 <= Qtrunc q <= M.
Proof.
  destruct q as [n d]. unfold Qle, Qtrunc. simpl. intros H0 HM.
  rewrite Z.mul_1_r in H0, HM.
  rewrite Z.quot_div_nonneg by lia.
  split.
  - apply Z.div_pos; lia.
  - apply Z.div_le_upper_bound; lia.
Qed.

Lemma ToInt32_within M n :
  0 <= M < 2 ^ 31 -> within M n -> 0 <= ToInt32 n <= M.
Proof.
  intros HM [-> | (q & -> & H0 & H1)]; simpl; [lia |].
  pose proof (Qtrunc_bounds q M H0 H1).
  rewrite wrap32_small; lia.
Qed.

Lemma compare_Num p q : JS.compare (Num p) (Num q) = Some (p ?= q)%Q.
Proof. reflexivity. Qed.

(** [Math.max(0, p)] for a finite [p] of at most [M]. *)
Lemma max_zero_within M p :
  (0 <= inject_Z M)%Q -> (p <= inject_Z M)%Q ->
  within M (JS.max (Num (inject_Z 0)) (Num p)).
Proof.
  intros H0M HpM. right. unfold JS.max. rewrite compare_Num.
  destruct (Qcompare_spec (inject_Z 0) p) as [He | Hl | Hg];
    [exists (inject_Z 0) | exists p | exists (inject_Z 0)];
    (split; [reflexivity | split]);
    first [apply Qle_refl | assumption | now apply Qlt_le_weak].
Qed.

(** [Math.min(q, M)] for a finite [q]. *)
Lemma min_bound_finite M q :
  exists p, JS.min (Num q) (Num (inject_Z M)) = Num p /\ (p <= inject_Z M)%Q.
Proof.
  unfold JS.min. rewrite compare_Num.
  destruct (Qcompare_spec q (inject_Z M)) as [He | Hl | Hg];
    [exists q | exists q | exists (inject_Z M)];
    (split; [reflexivity |]).
  - rewrite He. apply Qle_refl.
  - now apply Qlt_le_weak.
  - apply Qle_refl.
Qed.

Lemma clamp_within v M : 0 <= M -> within M (clamp v (ofZ M) clampMinDefault).
Proof.
  intros HM. unfold clamp, clampMinDefault, ofZ.
  assert (H0M : (0 <= inject_Z M)%Q) by (unfold Qle; simpl; lia).
  destruct v as [ | | q | ].
  - now left.
  - right. exists (inject_Z 0).
    split; [reflexivity | split; [apply Qle_refl | exact H0M]].
  - destruct (min_bound_finite M q) as (p & -> & HpM).
    now apply max_zero_within.
  - change (JS.min Infinity (Num (inject_Z M))) with (Num (inject_Z M)).
    apply max_zero_within; [exact H0M | apply Qle_refl].
Qed.

Lemma Qcompare_inject_Z a b : (inject_Z a ?= inject_Z b)%Q = (a ?= b).
Proof. unfold Qcompare. simpl. now rewrite !Z.mul_1_r. Qed.

Lemma clamp_ofZ z M :
  0 <= z <= M -> clamp (ofZ z) (ofZ M) clampMinDefault = ofZ z.
Proof.
  intros H. unfold clamp, clampMinDefault, ofZ, JS.min.
  rewrite compare_Num, Qcompare_inject_Z.
  destruct (Z.compare_spec z M) as [He | Hl | Hg]; try lia;
    unfold JS.max; rewrite compare_Num, Qcompare_inject_Z;
    destruct (Z.compare_spec 0 z) as [He' | Hl' | Hg']; try lia;
    subst; reflexivity.
Qed.

(** ** The bit layout *)

Lemma land_byte_mask z k :
  0 <= k -> Z.land z (Z.shiftl 255 k) = ((z / 2 ^ k) mod 256) * 2 ^ k.
Proof.
  intros Hk. change 255 with (Z.ones 8).
  rewrite <- (Z.shiftl_mul_pow2 _ k) by assumption.
  change 256 with (2 ^ 8). rewrite <- Z.land_ones by lia.
  rewrite <- Z.shiftr_div_pow2 by assumption.
  apply Z.bits_inj'. intros i Hi.
  rewrite Z.land_spec.
  destruct (Z.lt_ge_cases i k) as [Hlt | Hge].
  - rewrite !Z.shiftl_spec_low by assumption. apply andb_false_r.
  - rewrite !Z.shiftl_spec by assumption.
    rewrite Z.land_spec, Z.shiftr_spec by lia.
    now replace (i - k + k) with i by lia.
Qed.

Lemma lor_shiftl_low hi lo k :
  0 <= k -> 0 <= lo < 2 ^ k -> Z.lor (Z.shiftl hi k) lo = hi * 2 ^ k + lo.
Proof.
  intros Hk Hlo.
  rewrite <- Z.shiftl_mul_pow2 by assumption.
  assert (Hdisj : Z.land (Z.shiftl hi k) lo = 0).
  { apply Z.bits_inj'. intros i Hi. rewrite Z.land_spec, Z.bits_0.
    destruct (Z.lt_ge_cases i k) as [Hlt | Hge].
    - now rewrite Z.shiftl_spec_low.
    - destruct (Z.eq_dec lo 0) as [-> | Hne].
      + rewrite Z.bits_0. apply andb_false_r.
      + rewrite (Z.bits_above_log2 lo i); [apply andb_false_r | lia |].
        apply Z.lt_le_trans with k; [apply Z.log2_lt_pow2; lia | lia]. }
  rewrite <- Z.lxor_lor by assumption.
  now rewrite Z.add_nocarry_lxor.
Qed.

Lemma pack_bytes r g b :
  0 <= ToInt32 r <= 255 -> 0 <= ToInt32 g <= 255 -> 0 <= ToInt32 b <= 255 ->
  Color.pack r g b = ofZ (rgb24 (ToInt32 r) (ToInt32 g) (ToInt32 b)).
Proof.
  intros Hr Hg Hb. unfold Color.pack, bor, shl.
  change (Z.land 16 31) with 16. change (Z.land 8 31) with 8.
  rewrite !Z.shiftl_mul_pow2 by lia.
  rewrite (wrap32_small (ToInt32 r * 2 ^ 16)) by lia.
  rewrite (wrap32_small (ToInt32 g * 2 ^ 8)) by lia.
  rewrite (ToInt32_ofZ (ToInt32 r * 2 ^ 16)) by lia.
  rewrite (ToInt32_ofZ (ToInt32 g * 2 ^ 8)) by lia.
  rewrite <- (Z.shiftl_mul_pow2 (ToInt32 r)) by lia.
  rewrite (lor_shiftl_low (ToInt32 r) (ToInt32 g * 2 ^ 8) 16) by lia.
  rewrite ToInt32_ofZ by lia.
  replace (ToInt32 r * 2 ^ 16 + ToInt32 g * 2 ^ 8)
    with (Z.shiftl (ToInt32 r * 2 ^ 8 + ToInt32 g) 8)
    by (rewrite Z.shiftl_mul_pow2 by lia; lia).
  rewrite lor_shiftl_low by lia.
  unfold rgb24. f_equal. lia.
Qed.

Lemma rgb24_range r g b :
  0 <= r <= 255 -> 0 <= g <= 255 -> 0 <= b <= 255 ->
  0 <= rgb24 r g b < 2 ^ 24.
Proof. unfold rgb24. lia. Qed.

Lemma decodeRGB_fields n :
  Color.decodeRGB n =
  RGBObject.mk (Some n)
    (ofZ ((ToInt32 n / 2 ^ 16) mod 256))
    (ofZ ((ToInt32 n / 2 ^ 8) mod 256))
    (ofZ (ToInt32 n mod 256)).
Proof.
  unfold Color.decodeRGB, shr, band.
  change (Z.land 16 31) with 16. change (Z.land 8 31) with 8.
  rewrite (ToInt32_ofZ 0xff0000), (ToInt32_ofZ 0xff00), (ToInt32_ofZ 0xff)
    by lia.
  change 0xff0000 with (Z.shiftl 255 16). change 0xff00 with (Z.shiftl 255 8).
  rewrite !land_byte_mask by lia.
  change 0xff with (Z.ones 8). rewrite Z.land_ones by lia.
  pose proof (Z.mod_pos_bound (ToInt32 n / 2 ^ 16) 256 ltac:(lia)).
  pose proof (Z.mod_pos_bound (ToInt32 n / 2 ^ 8) 256 ltac:(lia)).
  rewrite !ToInt32_ofZ by lia.
  rewrite !Z.shiftr_div_pow2 by lia.
  rewrite !Z.div_mul by lia.
  reflexivity.
Qed.

Lemma rgb24_decode r g b :
  0 <= r <= 255 -> 0 <= g <= 255 -> 0 <= b <= 255 ->
  (rgb24 r g b / 2 ^ 16) mod 256 = r /\
  (rgb24 r g b / 2 ^ 8) mod 256 = g /\
  rgb24 r g b mod 256 = b.
Proof.
  intros Hr Hg Hb. unfold rgb24.
  change (2 ^ 16) with 65536. change (2 ^ 8) with 256.
  repeat split; Z.div_mod_to_equations; lia.
Qed.

(** ** The HSL conversion stays within the byte range *)

Lemma div_100_unit n : within 100 n -> unit01 (div n (ofZ 100)).
Proof.
  intros [-> | (q & -> & H0 & H1)]; [now left | right].
  exists (q / inject_Z 100)%Q. split; [reflexivity |].
  change (inject_Z 100) with 100%Q in *.
  split.
  - apply Qle_shift_div_l; [reflexivity | lra].
  - apply Qle_shift_div_r; [reflexivity | lra].
Qed.

Lemma Qtrunc_nonneg_floor (q : Q) : (0 <= q)%Q -> Qtrunc q = Qfloor q.
Proof.
  destruct q as [n d]. unfold Qle, Qtrunc, Qfloor. simpl. intros H.
  apply Z.quot_div_nonneg; lia.
Qed.

Lemma rem_2_bounds (p : Q) :
  (0 <= p)%Q ->
  exists r, rem (Num p) (ofZ 2) = Num r /\ (0 <= r)%Q /\ (r < 2)%Q.
Proof.
  intros Hp. unfold rem, ofZ.
  change (Qeq_bool (inject_Z 2) 0) with false. cbv iota.
  eexists. split; [reflexivity |].
  change (inject_Z 2) with 2%Q.
  assert (Hq : (0 <= p / 2)%Q) by (apply Qle_shift_div_l; [reflexivity | lra]).
  rewrite (Qtrunc_nonneg_floor _ Hq).
  pose proof (Qfloor_le (p / 2)) as Hlo.
  pose proof (Qlt_floor (p / 2)) as Hhi.
  rewrite inject_Z_plus in Hhi. change (inject_Z 1) with 1%Q in Hhi.
  assert (Hp2 : (p == 2 * (p / 2))%Q) by (field).
  set (f := inject_Z (Qfloor (p / 2))) in *.
  set (y := (p / 2)%Q) in *.
  split; lra.
Qed.

Lemma Qabs_unit (e : Q) :
  (-1 <= e)%Q -> (e <= 1)%Q ->
  (0 <= Qabs e)%Q /\ (Qabs e <= 1)%Q /\ (e <= Qabs e)%Q /\ (- e <= Qabs e)%Q.
Proof.
  intros Hlo Hhi. repeat split.
  - apply Qabs_nonneg.
  - apply Qabs_Qle_condition. split; assumption.
  - apply Qle_Qabs.
  - rewrite <- Qabs_opp. apply Qle_Qabs.
Qed.

(** Chroma [c] and lightness match [m] as [getColorValueFromHSL] computes
    them from the normalised [s] and [l]. *)
Lemma chroma_match_bounds l s :
  unit01 l -> unit01 s ->
  let c := mul (sub (ofZ 1) (abs (sub (mul (ofZ 2) l) (ofZ 1)))) s in
  let m := sub l (div c (ofZ 2)) in
  m = NaN \/
  exists qc qm, c = Num qc /\ m = Num qm /\
                (0 <= qc)%Q /\ (0 <= qm)%Q /\ (qc + qm <= 1)%Q.
Proof.
  intros [-> | (ql & -> & Hl0 & Hl1)] [-> | (qs & -> & Hs0 & Hs1)];
    cbv zeta; try (now left).
  right. eexists. eexists.
  split; [reflexivity |]. split; [reflexivity |].
  change (inject_Z 2) with 2%Q. change (inject_Z 1) with 1%Q.
  destruct (Qabs_unit (2 * ql + - (1))%Q) as (Ha0 & Ha1 & Ha2 & Ha3);
    [lra | lra |].
  set (t := Qabs (2 * ql + - (1))) in *.
  assert (Hc0 : (0 <= (1 + - t) * qs)%Q) by (apply Qmult_le_0_compat; lra).
  assert (Hc1 : ((1 + - t) * qs <= 1 + - t)%Q).
  { assert (H : (0 <= (1 + - t) * (1 - qs))%Q)
      by (apply Qmult_le_0_compat; lra).
    lra. }
  set (qc := ((1 + - t) * qs)%Q) in *.
  assert (Hhalf : (qc / 2 == qc * (1 # 2))%Q) by (field).
  repeat split; try assumption; rewrite Hhalf; lra.
Qed.

(** The secondary component [x]. *)
Lemma secondary_bounds h qc :
  within 360 h -> (0 <= qc)%Q ->
  let x :=
    mul (Num qc)
      (sub (ofZ 1) (abs (sub (rem (div h (ofZ 60)) (ofZ 2)) (ofZ 1)))) in
  x = NaN \/ exists qx, x = Num qx /\ (0 <= qx)%Q /\ (qx <= qc)%Q.
Proof.
  intros [-> | (qh & -> & Hh0 & Hh1)] Hc; cbv zeta; [now left | right].
  assert (Hdiv : div (Num qh) (ofZ 60) = Num (qh / 60)) by reflexivity.
  rewrite Hdiv.
  assert (Hp : (0 <= qh / 60)%Q)
    by (apply Qle_shift_div_l; [reflexivity | lra]).
  destruct (rem_2_bounds _ Hp) as (r & -> & Hr0 & Hr2).
  eexists. split; [reflexivity |].
  change (inject_Z 1) with 1%Q.
  destruct (Qabs_unit (r + - (1))%Q) as (Ha0 & Ha1 & _ & _); [lra | lra |].
  set (t := Qabs (r + - (1))) in *.
  assert (H1 : (0 <= qc * (1 + - t))%Q) by (apply Qmult_le_0_compat; lra).
  assert (H2 : (0 <= qc * t)%Q) by (apply Qmult_le_0_compat; lra).
  split; lra.
Qed.

(** Whatever branch [sextant] takes, each component it returns is zero,
    [c] or [x]. *)
Lemma sextant_components h c x :
  let '(r, g, b) := Color.sextant h c x in
  (r = ofZ 0 \/ r = c \/ r = x) /\
  (g = ofZ 0 \/ g = c \/ g = x) /\
  (b = ofZ 0 \/ b = c \/ b = x).
Proof.
  unfold Color.sextant. cbv zeta.
  repeat match goal with
         | |- context [if ?t then _ else _] => destruct t
         end; tauto.
Qed.

(** [(v + m) * 255] for a component [v] and the lightness match [m]. *)
Lemma scaled_within qv qm :
  (0 <= qv)%Q -> (0 <= qm)%Q -> (qv + qm <= 1)%Q ->
  within 255 (mul (add (Num qv) (Num qm)) (ofZ 255)).
Proof.
  intros Hv Hm H1. right. eexists. split; [reflexivity |].
  change (inject_Z 255) with 255%Q. split; lra.
Qed.

Lemma scaled_NaN v : mul (add v NaN) (ofZ 255) = NaN.
Proof. destruct v; reflexivity. Qed.

Lemma HSL_channels h s l a :
  exists r g b alpha,
    Color.getColorValueFromHSL h s l a = ColorObject.mk (Color.pack r g b) alpha
    /\ within 255 r /\ within 255 g /\ within 255 b.
Proof.
  unfold Color.getColorValueFromHSL. cbv zeta.
  set (h' := clamp h (ofZ 360) clampMinDefault).
  set (s' := div (clamp s (ofZ 100) clampMinDefault) (ofZ 100)).
  set (l' := div (clamp l (ofZ 100) clampMinDefault) (ofZ 100)).
  assert (Hh : within 360 h') by (apply clamp_within; lia).
  assert (Hs : unit01 s') by (apply div_100_unit, clamp_within; lia).
  assert (Hl : unit01 l') by (apply div_100_unit, clamp_within; lia).
  pose proof (chroma_match_bounds l' s' Hl Hs) as Hcm. cbv zeta in Hcm.
  set (c := mul (sub (ofZ 1) (abs (sub (mul (ofZ 2) l') (ofZ 1)))) s') in *.
  set (m := sub l' (div c (ofZ 2))) in *.
  set (x := mul c (sub (ofZ 1)
                     (abs (sub (rem (div h' (ofZ 60)) (ofZ 2)) (ofZ 1))))).
  pose proof (sextant_components h' c x) as Hsx.
  destruct (Color.sextant h' c x) as [[r g] b].
  do 4 eexists. split; [reflexivity |].
  destruct Hcm as [Hm | (qc & qm & Hc & Hm & Hc0 & Hm0 & Hcm1)].
  - rewrite Hm, !scaled_NaN. repeat split; now left.
  - assert (Hx : x = NaN \/ exists qx, x = Num qx /\ (0 <= qx)%Q /\ (qx <= qc)%Q).
    { subst x. rewrite Hc. now apply secondary_bounds. }
    assert (Hany : forall v, v = ofZ 0 \/ v = c \/ v = x ->
                             within 255 (mul (add v m) (ofZ 255))).
    { intros v [-> | [-> | ->]]; rewrite Hm.
      - apply scaled_within; [apply Qle_refl | assumption |].
        change (inject_Z 0) with 0%Q. lra.
      - rewrite Hc. apply scaled_within; assumption.
      - destruct Hx as [-> | (qx & -> & Hx0 & Hx1)]; [now left |].
        apply scaled_within; [assumption | assumption | lra]. }
    destruct Hsx as (Hr & Hg & Hb). repeat split; now apply Hany.
Qed.

(** ** What the two conversions store *)

Lemma packedBytes_pack r g b :
  within 255 r -> within 255 g -> within 255 b ->
  packedBytes (Color.pack r g b).
Proof.
  intros Hr Hg Hb.
  apply (ToInt32_within 255) in Hr; [| lia].
  apply (ToInt32_within 255) in Hg; [| lia].
  apply (ToInt32_within 255) in Hb; [| lia].
  exists (ToInt32 r), (ToInt32 g), (ToInt32 b).
  pose proof (rgb24_range _ _ _ Hr Hg Hb) as Hrange.
  pose proof (rgb24_decode _ _ _ Hr Hg Hb) as (Dr & Dg & Db).
  rewrite (pack_bytes r g b Hr Hg Hb).
  repeat split; try lia.
  rewrite decodeRGB_fields, ToInt32_ofZ by lia.
  now rewrite Dr, Dg, Db.
Qed.

Lemma RGB_packedBytes r g b a :
  packedBytes (ColorObject.color (Color.getColorValueFromRGB r g b a)).
Proof.
  unfold Color.getColorValueFromRGB. cbv zeta. simpl ColorObject.color.
  apply packedBytes_pack; apply clamp_within; lia.
Qed.

Lemma HSL_packedBytes h s l a :
  packedBytes (ColorObject.color (Color.getColorValueFromHSL h s l a)).
Proof.
  destruct (HSL_channels h s l a) as (r & g & b & alpha & -> & Hr & Hg & Hb).
  now apply packedBytes_pack.
Qed.

Lemma packedBytes_integral n : packedBytes n -> integral n.
Proof. intros (r & g & b & _ & _ & _ & -> & _). right. now eexists. Qed.

(** ** Reads leave the canonical pair alone *)

Lemma get_rgb_frame this :
  Color.c (snd (Color.get_rgb this)) = Color.c this /\
  Color.a (snd (Color.get_rgb this)) = Color.a this /\
  Color.lhsl (snd (Color.get_rgb this)) = Color.lhsl this.
Proof.
  unfold Color.get_rgb. cbv zeta.
  destruct (Color.lrgb this) as [o |]; [| now simpl].
  destruct (Color.colorDiffers _ _); now simpl.
Qed.

Lemma get_red_state this : snd (Color.get_red this) = snd (Color.get_rgb this).
Proof. unfold Color.get_red. now destruct (Color.get_rgb this). Qed.

Lemma get_green_state this :
  snd (Color.get_green this) = snd (Color.get_rgb this).
Proof. unfold Color.get_green. now destruct (Color.get_rgb this). Qed.

Lemma get_blue_state this :
  snd (Color.get_blue this) = snd (Color.get_rgb this).
Proof. unfold Color.get_blue. now destruct (Color.get_rgb this). Qed.

(** [get hsl()] with its three channel reads spelled out as reads of
    [rgb]. *)
Lemma get_hsl_unfold this :
  Color.get_hsl this =
  let t1 := snd (Color.get_rgb this) in
  let t2 := snd (Color.get_rgb t1) in
  let t3 := snd (Color.get_rgb t2) in
  let o :=
    Color.encodeHSL (Color.c t3)
      (RGBObject.red (fst (Color.get_rgb this)))
      (RGBObject.green (fst (Color.get_rgb t1)))
      (RGBObject.blue (fst (Color.get_rgb t2))) in
  let refill := (o, Color.mk (Color.c t3) (Color.a t3) (Some o) (Color.lrgb t3)) in
  match Color.lhsl this with
  | None => refill
  | Some o' =>
      if Color.colorDiffers (HSLObject.color o') (Color.get_color this)
      then refill else (o', this)
  end.
Proof.
  unfold Color.get_hsl, Color.get_red, Color.get_green, Color.get_blue.
  cbv zeta.
  destruct (Color.get_rgb this) as [o1 t1]. simpl.
  destruct (Color.get_rgb t1) as [o2 t2]. simpl.
  destruct (Color.get_rgb t2) as [o3 t3]. simpl.
  reflexivity.
Qed.

Lemma get_hsl_frame this :
  Color.c (snd (Color.get_hsl this)) = Color.c this /\
  Color.a (snd (Color.get_hsl this)) = Color.a this.
Proof.
  rewrite get_hsl_unfold. cbv zeta.
  destruct (get_rgb_frame this) as (C1 & A1 & _).
  destruct (get_rgb_frame (snd (Color.get_rgb this))) as (C2 & A2 & _).
  destruct (get_rgb_frame (snd (Color.get_rgb (snd (Color.get_rgb this)))))
    as (C3 & A3 & _).
  destruct (Color.lhsl this) as [o |]; [| simpl; split; congruence].
  destruct (Color.colorDiffers _ _); simpl; split; congruence.
Qed.

Lemma get_hue_state this : snd (Color.get_hue this) = snd (Color.get_hsl this).
Proof. unfold Color.get_hue. now destruct (Color.get_hsl this). Qed.

Lemma get_saturation_state this :
  snd (Color.get_saturation this) = snd (Color.get_hsl this).
Proof. unfold Color.get_saturation. now destruct (Color.get_hsl this). Qed.

Lemma get_lightness_state this :
  snd (Color.get_lightness this) = snd (Color.get_hsl this).
Proof. unfold Color.get_lightness. now destruct (Color.get_hsl this). Qed.

(** One channel read at the head of a setter: name what it returns and
    replace the instance it leaves by the one the view read leaves. *)
Ltac read_as state_lemma getter this :=
  let E := fresh "E" in
  let v := fresh "v" in
  let t := fresh "t" in
  pose proof (state_lemma this) as E;
  destruct (getter this) as [v t]; simpl in E; subst t.

Ltac channel_read :=
  match goal with
  | |- context [Color.get_red ?t] => read_as get_red_state Color.get_red t
  | |- context [Color.get_green ?t] => read_as get_green_state Color.get_green t
  | |- context [Color.get_blue ?t] => read_as get_blue_state Color.get_blue t
  | |- context [Color.get_hue ?t] => read_as get_hue_state Color.get_hue t
  | |- context [Color.get_saturation ?t] =>
      read_as get_saturation_state Color.get_saturation t
  | |- context [Color.get_lightness ?t] =>
      read_as get_lightness_state Color.get_lightness t
  end.

(** Each channel setter as one assignment to [c] after its reads. *)
Lemma set_red_shape v this :
  exists g b al,
    Color.set_red v this =
    Color.assign_c (snd (Color.get_rgb (snd (Color.get_rgb this))))
      (ColorObject.color (Color.getColorValueFromRGB v g b al)).
Proof. unfold Color.set_red. repeat channel_read. now do 3 eexists. Qed.

Lemma set_green_shape v this :
  exists r b al,
    Color.set_green v this =
    Color.assign_c (snd (Color.get_rgb (snd (Color.get_rgb this))))
      (ColorObject.color (Color.getColorValueFromRGB r v b al)).
Proof. unfold Color.set_green. repeat channel_read. now do 3 eexists. Qed.

Lemma set_blue_shape v this :
  exists r g al,
    Color.set_blue v this =
    Color.assign_c (snd (Color.get_rgb (snd (Color.get_rgb this))))
      (ColorObject.color (Color.getColorValueFromRGB r g v al)).
Proof. unfold Color.set_blue. repeat channel_read. now do 3 eexists. Qed.

Lemma set_hue_shape v this :
  exists s l al,
    Color.set_hue v this =
    Color.assign_c (snd (Color.get_hsl (snd (Color.get_hsl this))))
      (ColorObject.color (Color.getColorValueFromHSL v s l al)).
Proof. unfold Color.set_hue. repeat channel_read. now do 3 eexists. Qed.

Lemma set_saturation_shape v this :
  exists h l al,
    Color.set_saturation v this =
    Color.assign_c (snd (Color.get_hsl (snd (Color.get_hsl this))))
      (ColorObject.color (Color.getColorValueFromHSL h v l al)).
Proof. unfold Color.set_saturation. repeat channel_read. now do 3 eexists. Qed.

Lemma set_lightness_shape v this :
  exists h s al,
    Color.set_lightness v this =
    Color.assign_c (snd (Color.get_hsl (snd (Color.get_hsl this))))
      (ColorObject.color (Color.getColorValueFromHSL h s v al)).
Proof. unfold Color.set_lightness. repeat channel_read. now do 3 eexists. Qed.

Lemma set_alpha_throws stack alpha this :
  Color.set_alpha stack alpha this = Throw RangeError.
Proof. induction stack as [| stack IH]; simpl; [reflexivity | exact IH]. Qed.

(** ** The resolver: when it throws, and what it returns *)

Lemma strip_hash (a : string) :
  (if startsWith "#" a then replaceFirst "#" a else a) = stripped a.
Proof.
  destruct a as [| d rest]; [reflexivity |].
  unfold startsWith. simpl String.prefix.
  destruct (ascii_dec "#" d) as [<- | Hne].
  - destruct rest; reflexivity.
  - destruct d as [[] [] [] [] [] [] [] []]; try reflexivity.
    now contradiction Hne.
Qed.

Lemma length_guard (len : nat) :
  negb (Nat.eqb len 3) && negb (Nat.eqb len 4)
  && negb (Nat.eqb len 6) && negb (Nat.eqb len 8) = negb (validLength len).
Proof.
  unfold validLength.
  destruct (Nat.eqb len 3), (Nat.eqb len 4), (Nat.eqb len 6), (Nat.eqb len 8);
    reflexivity.
Qed.

Lemma parseInt_integral s : integral (parseInt s).
Proof.
  unfold parseInt. cbv zeta.
  repeat match goal with
         | |- context [let '(_, _) := ?t in _] => destruct t
         end.
  destruct (parseDigits _ _ _ _); [right; now eexists | now left].
Qed.

Section ResolverFacts.

Variable NumberToString : Q -> string.

Lemma resolveTriple_packedBytes colorMode a b c alpha :
  packedBytes
    (ColorObject.color (Color.resolveTriple colorMode a b c alpha)).
Proof.
  unfold Color.resolveTriple. cbv zeta.
  destruct colorMode; [apply RGB_packedBytes | apply HSL_packedBytes].
Qed.

(** The two outcomes of the resolver. *)
Lemma parseParameters_outcome colorMode a b c alpha :
  match Color.parseParameters NumberToString colorMode a b c alpha with
  | Throw e =>
      e = InvalidFormat /\
      exists s, a = Hexadecimal s /\
                validLength (String.length (stripped s)) = false
  | Normal o =>
      integral (ColorObject.color o) /\
      match a with
      | Hexadecimal s => validLength (String.length (stripped s)) = true
      | Number _ => True
      end
  end.
Proof.
  destruct a as [s | n]; simpl.
  - rewrite strip_hash, length_guard.
    destruct (validLength (String.length (stripped s))) eqn:Hlen; simpl.
    + destruct (Color.hexDigits _ _ _ _) as [digits t].
      destruct (JS.falsy b && JS.falsy c); simpl.
      * split; [apply parseInt_integral | reflexivity].
      * split; [| reflexivity].
        apply packedBytes_integral, resolveTriple_packedBytes.
    + split; [reflexivity |]. exists s. now split.
  - split; [| exact I].
    apply packedBytes_integral, resolveTriple_packedBytes.
Qed.

End ResolverFacts.

(** ** The caches follow the packed value *)

Lemma eqb_integral u v : integral u -> integral v -> eqb u v = true -> u = v.
Proof.
  intros [-> | (z1 & ->)] [-> | (z2 & ->)]; try discriminate.
  unfold eqb, ofZ. rewrite compare_Num, Qcompare_inject_Z.
  destruct (Z.compare_spec z1 z2); try discriminate. now subst.
Qed.

Lemma colorDiffers_false u v :
  integral u -> integral v -> Color.colorDiffers (Some u) v = false -> u = v.
Proof.
  intros Hu Hv H. apply eqb_integral; try assumption.
  unfold Color.colorDiffers, neqb in H. now apply negb_false_iff in H.
Qed.

Lemma decodeRGB_color u : RGBObject.color (Color.decodeRGB u) = Some u.
Proof. reflexivity. Qed.

Lemma hslOf_color u : HSLObject.color (hslOf u) = Some u.
Proof. reflexivity. Qed.

Lemma get_rgb_coherent this :
  coherent this ->
  fst (Color.get_rgb this) = Color.decodeRGB (Color.c this) /\
  coherent (snd (Color.get_rgb this)).
Proof.
  intros H. pose proof H as (Hc & Hrgb & Hhsl).
  unfold Color.get_rgb, Color.get_color. cbv zeta.
  assert (Hfill :
    coherent (Color.mk (Color.c this) (Color.a this) (Color.lhsl this)
                (Some (Color.decodeRGB (Color.c this))))).
  { repeat split; simpl; try assumption.
    intros o [= <-]. now exists (Color.c this). }
  destruct (Color.lrgb this) as [o |] eqn:Ho; [| now split].
  destruct (Hrgb o eq_refl) as (u & Hu & ->).
  rewrite decodeRGB_color.
  destruct (Color.colorDiffers (Some u) (Color.c this)) eqn:Hd; [now split |].
  apply colorDiffers_false in Hd; try assumption. subst u.
  split; [reflexivity | exact H].
Qed.

Lemma get_rgb_again this :
  coherent this ->
  fst (Color.get_rgb (snd (Color.get_rgb this))) = Color.decodeRGB (Color.c this)
  /\ coherent (snd (Color.get_rgb (snd (Color.get_rgb this))))
  /\ Color.c (snd (Color.get_rgb (snd (Color.get_rgb this)))) = Color.c this.
Proof.
  intros H. destruct (get_rgb_coherent this H) as (_ & H1).
  destruct (get_rgb_coherent _ H1) as (E2 & H2).
  destruct (get_rgb_frame this) as (C1 & _).
  destruct (get_rgb_frame (snd (Color.get_rgb this))) as (C2 & _).
  split; [congruence | split; [assumption | congruence]].
Qed.

Lemma get_hsl_coherent this :
  coherent this ->
  fst (Color.get_hsl this) = hslOf (Color.c this) /\
  coherent (snd (Color.get_hsl this)).
Proof.
  intros H. rewrite get_hsl_unfold. cbv zeta.
  destruct (get_rgb_coherent this H) as (E1 & H1).
  destruct (get_rgb_again this H) as (E2 & H2 & C2).
  destruct (get_rgb_coherent _ H2) as (E3 & H3).
  destruct (get_rgb_frame (snd (Color.get_rgb (snd (Color.get_rgb this)))))
    as (C3 & _).
  set (t3 := snd (Color.get_rgb (snd (Color.get_rgb (snd (Color.get_rgb this)))))) in *.
  rewrite E1, E2, E3, C2, C3, C2.
  fold (hslOf (Color.c this)).
  assert (Hfill :
    coherent (Color.mk (Color.c this) (Color.a t3) (Some (hslOf (Color.c this)))
                (Color.lrgb t3))).
  { destruct H3 as (Hc3 & Hrgb3 & _). pose proof H as (Hc & _).
    repeat split; simpl; try assumption.
    intros o [= <-]. now exists (Color.c this). }
  pose proof H as (Hc & Hrgb & Hhsl).
  destruct (Color.lhsl this) as [o |] eqn:Ho; [| now split].
  destruct (Hhsl o eq_refl) as (u & Hu & ->).
  rewrite hslOf_color. unfold Color.get_color.
  destruct (Color.colorDiffers (Some u) (Color.c this)) eqn:Hd; [now split |].
  apply colorDiffers_false in Hd; try assumption. subst u.
  split; [reflexivity | exact H].
Qed.

Lemma assign_c_coherent this n :
  coherent this -> integral n -> coherent (Color.assign_c this n).
Proof. intros (_ & Hrgb & Hhsl) Hn. now repeat split. Qed.

Lemma get_hsl_again_coherent this :
  coherent this -> coherent (snd (Color.get_hsl (snd (Color.get_hsl this)))).
Proof.
  intros H. apply get_hsl_coherent. now apply get_hsl_coherent.
Qed.

Lemma reachable_coherent NumberToString this :
  reachable NumberToString this -> coherent this.
Proof.
  induction 1 as
    [ mode a b c d this Hnew
    | this _ IH | this _ IH | this _ IH | this _ IH
    | this _ IH | this _ IH | this _ IH | this _ IH
    | v this _ IH | v this _ IH | v this _ IH
    | v this _ IH | v this _ IH | v this _ IH
    | stack v this this' _ IH Hset
    | mode hex this this' _ IH Hset ].
  - unfold Color.new in Hnew.
    pose proof (parseParameters_outcome NumberToString mode a b c d) as Hout.
    destruct (Color.parseParameters NumberToString mode a b c d) as [o | e];
      [| discriminate].
    injection Hnew as <-. destruct Hout as (Hint & _).
    repeat split; simpl; [assumption | discriminate | discriminate].
  - now apply get_rgb_coherent.
  - rewrite get_red_state. now apply get_rgb_coherent.
  - rewrite get_green_state. now apply get_rgb_coherent.
  - rewrite get_blue_state. now apply get_rgb_coherent.
  - now apply get_hsl_coherent.
  - rewrite get_hue_state. now apply get_hsl_coherent.
  - rewrite get_saturation_state. now apply get_hsl_coherent.
  - rewrite get_lightness_state. now apply get_hsl_coherent.
  - destruct (set_red_shape v this) as (g & b & al & ->).
    apply assign_c_coherent;
      [now apply get_rgb_again | apply packedBytes_integral, RGB_packedBytes].
  - destruct (set_green_shape v this) as (r & b & al & ->).
    apply assign_c_coherent;
      [now apply get_rgb_again | apply packedBytes_integral, RGB_packedBytes].
  - destruct (set_blue_shape v this) as (r & g & al & ->).
    apply assign_c_coherent;
      [now apply get_rgb_again | apply packedBytes_integral, RGB_packedBytes].
  - destruct (set_hue_shape v this) as (s & l & al & ->).
    apply assign_c_coherent;
      [now apply get_hsl_again_coherent
      | apply packedBytes_integral, HSL_packedBytes].
  - destruct (set_saturation_shape v this) as (h & l & al & ->).
    apply assign_c_coherent;
      [now apply get_hsl_again_coherent
      | apply packedBytes_integral, HSL_packedBytes].
  - destruct (set_lightness_shape v this) as (h & s & al & ->).
    apply assign_c_coherent;
      [now apply get_hsl_again_coherent
      | apply packedBytes_integral, HSL_packedBytes].
  - rewrite set_alpha_throws in Hset. discriminate.
  - unfold Color.set_hex in Hset.
    pose proof (parseParameters_outcome NumberToString mode
                  (Hexadecimal hex) None None None) as Hout.
    destruct (Color.parseParameters NumberToString mode (Hexadecimal hex)
                None None None) as [o | e]; [| discriminate].
    injection Hset as <-. destruct Hout as (Hint & _).
    now apply assign_c_coherent.
Qed.

(** ** The conversions and the resolver, case by case *)

(** X1.  Only the first test of the chain can succeed: it holds exactly
    when [h > 60], and every later test asks for an [h] above 120 that
    the first has already taken; so the triple is [(c, x, 0)] for a hue
    above 60 and stays [(0, 0, 0)] otherwise. *)
Lemma sextant_as_written h c x :
  Color.sextant h c x =
  if gtb h (ofZ 60) then (c, x, ofZ 0) else (ofZ 0, ofZ 0, ofZ 0).
Proof.
  unfold Color.sextant. cbv zeta.
  destruct h as [ | | q | ]; try reflexivity.
  unfold leb, gtb, ofZ. rewrite !compare_Num.
  change (inject_Z 0) with 0%Q. change (inject_Z 60) with 60%Q.
  change (inject_Z 120) with 120%Q. change (inject_Z 180) with 180%Q.
  change (inject_Z 240) with 240%Q. change (inject_Z 300) with 300%Q.
  change (inject_Z 360) with 360%Q.
  destruct (Qcompare_spec q 60) as [E | L | G].
  - destruct (Qcompare_spec 0 q); simpl;
      destruct (Qcompare_spec q 120); try lra;
      destruct (Qcompare_spec q 180); try lra;
      destruct (Qcompare_spec q 240); try lra;
      destruct (Qcompare_spec q 360); try lra;
      repeat rewrite andb_false_r; reflexivity.
  - destruct (Qcompare_spec 0 q); simpl;
      destruct (Qcompare_spec q 120); try lra;
      destruct (Qcompare_spec q 180); try lra;
      destruct (Qcompare_spec q 240); try lra;
      destruct (Qcompare_spec q 360); try lra;
      repeat rewrite andb_false_r; reflexivity.
  - destruct (Qcompare_spec 0 q); try lra; reflexivity.
Qed.


Lemma short_hex_alpha_missing (NumberToString : Q -> string) colorMode :
  Color.parseParameters NumberToString colorMode (Hexadecimal "f08a")
    None None None =
  Normal (ColorObject.mk (ofZ 0xff0088) NaN).
Proof. reflexivity. Qed.

(** A numeric first argument goes straight to the conversion of the
    current mode, every optional argument replaced by its default when it
    is falsy. *)
Lemma numeric_input_resolves (NumberToString : Q -> string)
    colorMode a b c alpha :
  Color.parseParameters NumberToString colorMode (Number a) b c alpha =
  Normal
    match colorMode with
    | RGB =>
        Color.getColorValueFromRGB a (Color.orDefault b a) (Color.orDefault c a)
          (Color.orDefault alpha (ofZ 255))
    | HSL =>
        Color.getColorValueFromHSL a (Color.orDefault b (ofZ 50))
          (Color.orDefault c (ofZ 50)) (Some (Color.orDefault alpha (ofZ 255)))
    end.
Proof. destruct colorMode; reflexivity. Qed.

Lemma orDefault_missing d : Color.orDefault None d = d.
Proof. reflexivity. Qed.

Lemma orDefault_truthy v d :
  JS.falsy (Some v) = false -> Color.orDefault (Some v) d = v.
Proof. unfold Color.orDefault. now intros ->. Qed.

Lemma RGB_of_bytes r g b a :
  0 <= r <= 255 -> 0 <= g <= 255 -> 0 <= b <= 255 -> 0 <= a <= 255 ->
  Color.getColorValueFromRGB (ofZ r) (ofZ g) (ofZ b) (ofZ a) =
  ColorObject.mk (ofZ (rgb24 r g b)) (ofZ a).
Proof.
  intros Hr Hg Hb Ha. unfold Color.getColorValueFromRGB. cbv zeta.
  rewrite !clamp_ofZ by assumption.
  rewrite pack_bytes; rewrite !ToInt32_ofZ by lia; try lia.
  reflexivity.
Qed.

Lemma decodeRGB_of_bytes r g b :
  0 <= r <= 255 -> 0 <= g <= 255 -> 0 <= b <= 255 ->
  Color.decodeRGB (ofZ (rgb24 r g b)) =
  RGBObject.mk (Some (ofZ (rgb24 r g b))) (ofZ r) (ofZ g) (ofZ b).
Proof.
  intros Hr Hg Hb.
  pose proof (rgb24_range _ _ _ Hr Hg Hb) as Hrange.
  pose proof (rgb24_decode _ _ _ Hr Hg Hb) as (Dr & Dg & Db).
  rewrite decodeRGB_fields, ToInt32_ofZ by lia.
  now rewrite Dr, Dg, Db.
Qed.

Lemma get_rgb_unfilled c a lhsl :
  fst (Color.get_rgb (Color.mk c a lhsl None)) = Color.decodeRGB c.
Proof. reflexivity. Qed.

(** ** Hexadecimal strings *)

Lemma startsWith_hash_digit ch v rest :
  digitValue 16 ch = Some v -> startsWith "#" (String ch rest) = false.
Proof.
  intros H. unfold startsWith.
  destruct (String.prefix "#" (String ch rest)) eqn:E; [| reflexivity].
  apply prefix_correct in E.
  cbn [String.length substring] in E. injection E as -> _.
  discriminate H.
Qed.

Lemma hex_digit_range ch v : digitValue 16 ch = Some v -> 0 <= v <= 15.
Proof.
  unfold digitValue. cbv zeta.
  set (n := Z.of_nat (nat_of_ascii ch)).
  destruct ((48 <=? n) && (n <=? 57)) eqn:E1.
  - apply andb_prop in E1 as (A & B).
    destruct (n - 48 <? 16); [| discriminate]. intros [= <-]. lia.
  - destruct ((97 <=? n) && (n <=? 122)) eqn:E2.
    + apply andb_prop in E2 as (A & B).
      destruct (Z.ltb_spec (n - 87) 16); [| discriminate]. intros [= <-]. lia.
    + destruct ((65 <=? n) && (n <=? 90)) eqn:E3; [| discriminate].
      apply andb_prop in E3 as (A & B).
      destruct (Z.ltb_spec (n - 55) 16); [| discriminate]. intros [= <-]. lia.
Qed.

(** [parseInt] on a string that starts with [0x]: radix 16, no sign. *)
Lemma parseInt_0x s :
  parseInt (String "0" (String "x" s)) =
  match parseDigits 16 s 0 false with
  | Some v => ofZ v
  | None => NaN
  end.
Proof. reflexivity. Qed.

Lemma parseInt_two d1 d2 v1 v2 :
  digitValue 16 d1 = Some v1 -> digitValue 16 d2 = Some v2 ->
  parseInt (String "0" (String "x" (String d1 (String d2 EmptyString)))) =
  ofZ (byte v1 v2).
Proof.
  intros H1 H2. rewrite parseInt_0x. cbn [parseDigits].
  rewrite H1, H2. unfold byte. f_equal. lia.
Qed.

Lemma parseInt_six d1 d2 d3 d4 d5 d6 v1 v2 v3 v4 v5 v6 :
  digitValue 16 d1 = Some v1 -> digitValue 16 d2 = Some v2 ->
  digitValue 16 d3 = Some v3 -> digitValue 16 d4 = Some v4 ->
  digitValue 16 d5 = Some v5 -> digitValue 16 d6 = Some v6 ->
  parseInt
    (String "0" (String "x"
       (String d1 (String d2 (String d3 (String d4 (String d5 (String d6
          EmptyString)))))))) =
  ofZ (rgb24 (byte v1 v2) (byte v3 v4) (byte v5 v6)).
Proof.
  intros H1 H2 H3 H4 H5 H6. rewrite parseInt_0x. cbn [parseDigits].
  rewrite H1, H2, H3, H4, H5, H6.
  unfold rgb24, byte. f_equal. lia.
Qed.

Section HexForms.

Variable NumberToString : Q -> string.
Variable colorMode : ColorMode.
Variable alpha : optional number.

Let parse (s : string) : completion ColorObject.t :=
  Color.parseParameters NumberToString colorMode (Hexadecimal s)
    None None alpha.

Lemma parse_three d1 d2 d3 v1 v2 v3 :
  digitValue 16 d1 = Some v1 -> digitValue 16 d2 = Some v2 ->
  digitValue 16 d3 = Some v3 ->
  parse (String d1 (String d2 (String d3 EmptyString))) =
  Normal (ColorObject.mk
            (ofZ (rgb24 (byte v1 v1) (byte v2 v2) (byte v3 v3)))
            (ofZ 255)).
Proof.
  intros H1 H2 H3. unfold parse, Color.parseParameters.
  rewrite (startsWith_hash_digit _ _ _ H1).
  cbn [String.length Nat.eqb negb andb].
  unfold Color.hexDigits.
  cbn [Nat.eqb orb split list_ascii_of_string fold_left String.append].
  rewrite (parseInt_six d1 d1 d2 d2 d3 d3 _ _ _ _ _ _ H1 H1 H2 H2 H3 H3).
  reflexivity.
Qed.

Lemma parse_six d1 d2 d3 d4 d5 d6 v1 v2 v3 v4 v5 v6 :
  digitValue 16 d1 = Some v1 -> digitValue 16 d2 = Some v2 ->
  digitValue 16 d3 = Some v3 -> digitValue 16 d4 = Some v4 ->
  digitValue 16 d5 = Some v5 -> digitValue 16 d6 = Some v6 ->
  parse (String d1 (String d2 (String d3 (String d4 (String d5 (String d6
           EmptyString)))))) =
  Normal (ColorObject.mk
            (ofZ (rgb24 (byte v1 v2) (byte v3 v4) (byte v5 v6)))
            (ofZ 255)).
Proof.
  intros H1 H2 H3 H4 H5 H6. unfold parse, Color.parseParameters.
  rewrite (startsWith_hash_digit _ _ _ H1).
  cbn [String.length Nat.eqb negb andb].
  unfold Color.hexDigits. cbn [Nat.eqb orb String.append].
  rewrite (parseInt_six _ _ _ _ _ _ _ _ _ _ _ _ H1 H2 H3 H4 H5 H6).
  reflexivity.
Qed.

Lemma parse_eight d1 d2 d3 d4 d5 d6 d7 d8 v1 v2 v3 v4 v5 v6 v7 v8 :
  digitValue 16 d1 = Some v1 -> digitValue 16 d2 = Some v2 ->
  digitValue 16 d3 = Some v3 -> digitValue 16 d4 = Some v4 ->
  digitValue 16 d5 = Some v5 -> digitValue 16 d6 = Some v6 ->
  digitValue 16 d7 = Some v7 -> digitValue 16 d8 = Some v8 ->
  parse (String d1 (String d2 (String d3 (String d4 (String d5 (String d6
           (String d7 (String d8 EmptyString)))))))) =
  Normal (ColorObject.mk
            (ofZ (rgb24 (byte v1 v2) (byte v3 v4) (byte v5 v6)))
            (ofZ (byte v7 v8))).
Proof.
  intros H1 H2 H3 H4 H5 H6 H7 H8. unfold parse, Color.parseParameters.
  rewrite (startsWith_hash_digit _ _ _ H1).
  cbn [String.length Nat.eqb negb andb].
  unfold Color.hexDigits, pop.
  cbn [Nat.eqb orb split list_ascii_of_string rev app join
       string_of_list_ascii charToString String.append].
  rewrite (parseInt_six _ _ _ _ _ _ _ _ _ _ _ _ H1 H2 H3 H4 H5 H6).
  rewrite (parseInt_two _ _ _ _ H7 H8).
  reflexivity.
Qed.

(** A leading [#] in front of a digit is dropped before anything
    else is looked at. *)
Lemma parse_hash d v rest :
  digitValue 16 d = Some v ->
  parse (String "#" (String d rest)) = parse (String d rest).
Proof.
  intros H. unfold parse, Color.parseParameters.
  rewrite (startsWith_hash_digit _ _ _ H), strip_hash.
  reflexivity.
Qed.

End HexForms.

Lemma byte_range v1 v2 :
  0 <= v1 <= 15 -> 0 <= v2 <= 15 -> 0 <= byte v1 v2 <= 255.
Proof. unfold byte. lia. Qed.

(** ** Reachable instances and frames *)

Lemma reachable_blackThenRed : reachable integerHost blackThenRed.
Proof.
  unfold blackThenRed. apply reach_set_red, reach_get_hsl.
  now apply (reach_new integerHost RGB (Number (ofZ 0)) None None None).
Qed.

Lemma assign_c_alpha this n : Color.a (Color.assign_c this n) = Color.a this.
Proof. reflexivity. Qed.

Lemma get_rgb_twice_alpha this :
  Color.a (snd (Color.get_rgb (snd (Color.get_rgb this)))) = Color.a this.
Proof.
  destruct (get_rgb_frame this) as (_ & A1 & _).
  destruct (get_rgb_frame (snd (Color.get_rgb this))) as (_ & A2 & _).
  congruence.
Qed.

Lemma get_hsl_twice_alpha this :
  Color.a (snd (Color.get_hsl (snd (Color.get_hsl this)))) = Color.a this.
Proof.
  destruct (get_hsl_frame this) as (_ & A1).
  destruct (get_hsl_frame (snd (Color.get_hsl this))) as (_ & A2).
  congruence.
Qed.

(** ** The claims *)

(** C1.  With the colour mode set to HSL, [new Color(120, 100, 50)] is
    expected to be pure green.  The code builds an instance whose packed
    value is [0xff0000] and whose [rgb] view is red 255, green 0, blue 0:
    hue 120 satisfies the first test of the sextant chain
    ([0 <= h && h > 60]), which assigns [(c, x, 0)]. *)
Theorem hsl_120_100_50_is_packed_as_red (NumberToString : Q -> string) :
  exists this,
    Color.new NumberToString HSL (Number (ofZ 120))
      (Some (ofZ 100)) (Some (ofZ 50)) None = Normal this /\
    Color.c this = ofZ 0xff0000 /\
    fst (Color.get_rgb this) =
      RGBObject.mk (Some (ofZ 0xff0000)) (ofZ 255) (ofZ 0) (ofZ 0).
Proof.
  eexists. split; [reflexivity |]. split; reflexivity.
Qed.

(** C2.  The short form ["f08a"] with the alpha parameter 128: the three
    colour digits are doubled into the packed value [0xff0088], as
    expected.  The alpha is expected to be the parameter, 128; the code
    returns [0x128128] = 1212712, the decimal text of the parameter
    written twice and read as hexadecimal. *)
Theorem short_hex_f08a_with_alpha_128 :
  Color.parseParameters integerHost RGB (Hexadecimal "f08a")
    None None (Some (ofZ 128)) =
  Normal (ColorObject.mk (ofZ 0xff0088) (ofZ 1212712)).
Proof. vm_compute. reflexivity. Qed.

(** C3.  A call of the alpha setter is expected to return normally and
    to change nothing.  Its body assigns to the accessor it defines, so
    it calls itself until the stack is exhausted: for every stack bound,
    every argument and every instance the call ends in [RangeError]. *)
Theorem alpha_setter_never_returns stack alpha this :
  Color.set_alpha stack alpha this = Throw RangeError.
Proof.
  induction stack as [| stack IH].
  - reflexivity.
  - cbn [Color.set_alpha]. exact IH.
Qed.

(** C4.  Supplied values of [b], [c] and [alpha] are expected to be used
    as given.  A supplied zero is replaced by the default instead, since
    the defaults are guarded by [!b], [!c], [!alpha]: under the RGB mode
    [new Color(255, 0, 0, 0)] resolves to white [0xffffff] with alpha
    255, and under the HSL mode [(0, 0, 0)] resolves as [(0, 50, 50)]. *)
Theorem supplied_zero_is_replaced (NumberToString : Q -> string) :
  Color.parseParameters NumberToString RGB (Number (ofZ 255))
    (Some (ofZ 0)) (Some (ofZ 0)) (Some (ofZ 0)) =
  Normal (ColorObject.mk (ofZ 0xffffff) (ofZ 255))
  /\
  Color.parseParameters NumberToString HSL (Number (ofZ 0))
    (Some (ofZ 0)) (Some (ofZ 0)) None =
  Normal (Color.getColorValueFromHSL (ofZ 0) (ofZ 50) (ofZ 50) (Some (ofZ 255))).
Proof. split; reflexivity. Qed.

(** C5.  The resolver throws exactly when its first argument is a string
    whose length, after an optional leading [#] is removed, is not 3, 4,
    6 or 8; what it throws is then the one error of the module; and the
    constructor throws in the same cases and builds no instance. *)
Theorem invalid_length_is_the_only_error
    (NumberToString : Q -> string) colorMode a b c alpha e :
  (Color.parseParameters NumberToString colorMode a b c alpha = Throw e <->
   e = InvalidFormat /\
   exists s, a = Hexadecimal s /\
             validLength (String.length (stripped s)) = false)
  /\
  (Color.new NumberToString colorMode a b c alpha = Throw e <->
   e = InvalidFormat /\
   exists s, a = Hexadecimal s /\
             validLength (String.length (stripped s)) = false).
Proof.
  pose proof (parseParameters_outcome NumberToString colorMode a b c alpha)
    as Hout.
  unfold Color.new.
  destruct (Color.parseParameters NumberToString colorMode a b c alpha)
    as [o | e'].
  - destruct Hout as (_ & Hlen).
    split; (split; [discriminate |]);
      intros (_ & s & -> & Hbad); congruence.
  - destruct Hout as (-> & s & -> & Hbad).
    split; (split; [intros [= <-]; split; [reflexivity | now exists s]
                   | now intros (-> & _)]).
Qed.

Example seven_digits_are_refused (NumberToString : Q -> string) :
  Color.new NumberToString RGB (Hexadecimal "#1234567") None None None =
  Throw InvalidFormat.
Proof. reflexivity. Qed.

(** C6.  For integer channels [r], [g], [b], [a] between 0 and 255,
    [getColorValueFromRGB] packs them as [r * 65536 + g * 256 + b] and
    keeps [a]; the [rgb] view of an instance holding that pair gives back
    [r], [g] and [b], and its alpha gives back [a]; packing the channels
    the view gives gives back the packed value. *)
Theorem rgb_round_trip (r g b a : Z) :
  0 <= r <= 255 -> 0 <= g <= 255 -> 0 <= b <= 255 -> 0 <= a <= 255 ->
  let o := Color.getColorValueFromRGB (ofZ r) (ofZ g) (ofZ b) (ofZ a) in
  let this := Color.mk (ColorObject.color o) (ColorObject.alpha o) None None in
  let view := fst (Color.get_rgb this) in
  ColorObject.color o = ofZ (rgb24 r g b) /\
  RGBObject.red view = ofZ r /\
  RGBObject.green view = ofZ g /\
  RGBObject.blue view = ofZ b /\
  Color.get_alpha this = ofZ a /\
  Color.getColorValueFromRGB (RGBObject.red view) (RGBObject.green view)
    (RGBObject.blue view) (Color.get_alpha this) = o.
Proof.
  intros Hr Hg Hb Ha. cbv zeta.
  rewrite (RGB_of_bytes r g b a Hr Hg Hb Ha).
  cbn [ColorObject.color ColorObject.alpha].
  rewrite get_rgb_unfilled, (decodeRGB_of_bytes r g b Hr Hg Hb).
  cbn [RGBObject.red RGBObject.green RGBObject.blue Color.get_alpha Color.a].
  rewrite (RGB_of_bytes r g b a Hr Hg Hb Ha).
  repeat split; reflexivity.
Qed.

Lemma rgb_round_trip_51_102_153_200 :
  let o := Color.getColorValueFromRGB (ofZ 51) (ofZ 102) (ofZ 153) (ofZ 200) in
  let this := Color.mk (ColorObject.color o) (ColorObject.alpha o) None None in
  let view := fst (Color.get_rgb this) in
  ColorObject.color o = ofZ 0x336699 /\
  RGBObject.red view = ofZ 51 /\
  RGBObject.green view = ofZ 102 /\
  RGBObject.blue view = ofZ 153 /\
  Color.get_alpha this = ofZ 200 /\
  Color.getColorValueFromRGB (RGBObject.red view) (RGBObject.green view)
    (RGBObject.blue view) (Color.get_alpha this) = o.
Proof. apply (rgb_round_trip 51 102 153 200); lia. Defined.

(** A channel that is not an integer is cut to its integer part when it is
    packed, so the round trip is one of integer channels. *)
Remark fractional_channel_is_truncated :
  ColorObject.color
    (Color.getColorValueFromRGB (Num (3 # 2)) (ofZ 0) (ofZ 0) (ofZ 255)) =
  ofZ 0x010000.
Proof. reflexivity. Qed.

(** C7.  For hexadecimal digits [d1] ... [d8] of values [v1] ... [v8], with
    or without a leading [#], and with no [b] and [c]: the three-digit form
    resolves to the bytes [v1 v1], [v2 v2], [v3 v3] and alpha 255; the
    six-digit form to the bytes [v1 v2], [v3 v4], [v5 v6] and alpha 255,
    which the [rgb] view of the constructed instance reads back; the
    eight-digit form to the same three bytes and alpha [v7 v8]. *)
Theorem hex_forms (NumberToString : Q -> string) (colorMode : ColorMode)
    (alpha : optional number)
    (d1 d2 d3 d4 d5 d6 d7 d8 : ascii) (v1 v2 v3 v4 v5 v6 v7 v8 : Z) :
  digitValue 16 d1 = Some v1 -> digitValue 16 d2 = Some v2 ->
  digitValue 16 d3 = Some v3 -> digitValue 16 d4 = Some v4 ->
  digitValue 16 d5 = Some v5 -> digitValue 16 d6 = Some v6 ->
  digitValue 16 d7 = Some v7 -> digitValue 16 d8 = Some v8 ->
  let parse s :=
    Color.parseParameters NumberToString colorMode (Hexadecimal s)
      None None alpha in
  let s3 := String d1 (String d2 (String d3 EmptyString)) in
  let s6 :=
    String d1 (String d2 (String d3 (String d4 (String d5 (String d6
      EmptyString))))) in
  let s8 :=
    String d1 (String d2 (String d3 (String d4 (String d5 (String d6
      (String d7 (String d8 EmptyString))))))) in
  let short := rgb24 (byte v1 v1) (byte v2 v2) (byte v3 v3) in
  let full := rgb24 (byte v1 v2) (byte v3 v4) (byte v5 v6) in
  (parse s3 = Normal (ColorObject.mk (ofZ short) (ofZ 255)) /\
   parse (String "#" s3) = Normal (ColorObject.mk (ofZ short) (ofZ 255))) /\
  (parse s6 = Normal (ColorObject.mk (ofZ full) (ofZ 255)) /\
   parse (String "#" s6) = Normal (ColorObject.mk (ofZ full) (ofZ 255))) /\
  (parse s8 = Normal (ColorObject.mk (ofZ full) (ofZ (byte v7 v8))) /\
   parse (String "#" s8) =
     Normal (ColorObject.mk (ofZ full) (ofZ (byte v7 v8)))) /\
  (exists this,
     Color.new NumberToString colorMode (Hexadecimal (String "#" s6))
       None None alpha = Normal this /\
     fst (Color.get_rgb this) =
       RGBObject.mk (Some (ofZ full))
         (ofZ (byte v1 v2)) (ofZ (byte v3 v4)) (ofZ (byte v5 v6)) /\
     Color.get_alpha this = ofZ 255).
Proof.
  intros H1 H2 H3 H4 H5 H6 H7 H8. cbv beta zeta.
  rewrite !(parse_hash _ _ _ _ _ _ H1).
  rewrite (parse_three _ _ _ _ _ _ _ _ _ H1 H2 H3).
  rewrite (parse_six _ _ _ _ _ _ _ _ _ _ _ _ _ _ _ H1 H2 H3 H4 H5 H6).
  rewrite (parse_eight _ _ _ _ _ _ _ _ _ _ _ _ _ _ _ _ _ _ _
             H1 H2 H3 H4 H5 H6 H7 H8).
  repeat split.
  eexists. split.
  - unfold Color.new.
    rewrite (parse_hash _ _ _ _ _ _ H1).
    rewrite (parse_six _ _ _ _ _ _ _ _ _ _ _ _ _ _ _ H1 H2 H3 H4 H5 H6).
    reflexivity.
  - cbn [ColorObject.color ColorObject.alpha].
    rewrite get_rgb_unfilled.
    pose proof (hex_digit_range _ _ H1). pose proof (hex_digit_range _ _ H2).
    pose proof (hex_digit_range _ _ H3). pose proof (hex_digit_range _ _ H4).
    pose proof (hex_digit_range _ _ H5). pose proof (hex_digit_range _ _ H6).
    rewrite decodeRGB_of_bytes by (apply byte_range; assumption).
    split; reflexivity.
Qed.

Lemma hex_336699_reads_51_102_153 :
  Color.parseParameters integerHost RGB (Hexadecimal "#336699") None None None
    = Normal (ColorObject.mk (ofZ 0x336699) (ofZ 255)) /\
  Color.parseParameters integerHost RGB (Hexadecimal "369") None None None
    = Normal (ColorObject.mk (ofZ 0x336699) (ofZ 255)) /\
  Color.parseParameters integerHost RGB (Hexadecimal "33669980") None None None
    = Normal (ColorObject.mk (ofZ 0x336699) (ofZ 128)) /\
  exists this,
    Color.new integerHost RGB (Hexadecimal "#336699") None None None
      = Normal this /\
    fst (Color.get_rgb this) =
      RGBObject.mk (Some (ofZ 0x336699)) (ofZ 51) (ofZ 102) (ofZ 153) /\
    Color.get_alpha this = ofZ 255.
Proof.
  pose proof (hex_forms integerHost RGB None "3" "3" "6" "6" "9" "9" "8" "0"
                3 3 6 6 9 9 8 0
                eq_refl eq_refl eq_refl eq_refl eq_refl eq_refl eq_refl eq_refl)
    as (_ & (_ & Hsix) & (Height & _) & Hview).
  pose proof (hex_forms integerHost RGB None "3" "6" "9" "6" "9" "9" "8" "0"
                3 6 9 6 9 9 8 0
                eq_refl eq_refl eq_refl eq_refl eq_refl eq_refl eq_refl eq_refl)
    as ((Hthree & _) & _).
  split; [exact Hsix |]. split; [exact Hthree |]. split; [exact Height |].
  exact Hview.
Defined.

(** C8.  On every instance a program can hold, a read of [hsl] returns the
    HSL view of the live packed value and a read of [rgb] its RGB view,
    whatever was cached before; and a cached view is handed out again
    exactly when the packed value recorded in it equals the live one. *)
Theorem views_are_never_stale (NumberToString : Q -> string) (this : Color.t) :
  reachable NumberToString this ->
  fst (Color.get_hsl this) = hslOf (Color.c this) /\
  fst (Color.get_rgb this) = Color.decodeRGB (Color.c this) /\
  (forall o, Color.lhsl this = Some o ->
     Color.get_hsl this =
       if Color.colorDiffers (HSLObject.color o) (Color.c this)
       then (hslOf (Color.c this), snd (Color.get_hsl this))
       else (o, this)) /\
  (forall o, Color.lrgb this = Some o ->
     Color.get_rgb this =
       if Color.colorDiffers (RGBObject.color o) (Color.c this)
       then (Color.decodeRGB (Color.c this), snd (Color.get_rgb this))
       else (o, this)).
Proof.
  intros Hreach. apply reachable_coherent in Hreach.
  destruct (get_hsl_coherent this Hreach) as (Ehsl & _).
  destruct (get_rgb_coherent this Hreach) as (Ergb & _).
  split; [exact Ehsl |]. split; [exact Ergb |]. split.
  - intros o Ho. rewrite <- Ehsl.
    destruct (Color.colorDiffers (HSLObject.color o) (Color.c this)) eqn:Hd.
    + now rewrite <- surjective_pairing.
    + unfold Color.get_hsl. cbv zeta. rewrite Ho.
      unfold Color.get_color. now rewrite Hd.
  - intros o Ho. rewrite <- Ergb.
    destruct (Color.colorDiffers (RGBObject.color o) (Color.c this)) eqn:Hd.
    + now rewrite <- surjective_pairing.
    + unfold Color.get_rgb. cbv zeta. rewrite Ho.
      unfold Color.get_color. now rewrite Hd.
Qed.

Lemma black_read_then_red_reads_0_100_50 :
  Color.new integerHost RGB (Number (ofZ 0)) None None None = Normal black /\
  fst (Color.get_hsl black) =
    HSLObject.mk (Some (ofZ 0)) (ofZ 0) (ofZ 0) (ofZ 0) /\
  Color.c blackThenRed = ofZ 0xff0000 /\
  fst (Color.get_hsl blackThenRed) =
    HSLObject.mk (Some (ofZ 0xff0000)) (ofZ 0) (ofZ 100) (ofZ 50).
Proof.
  split; [reflexivity |]. split; [reflexivity |]. split; [reflexivity |].
  rewrite (proj1 (views_are_never_stale integerHost blackThenRed
                    reachable_blackThenRed)).
  reflexivity.
Defined.

(** C9.  A constructor call with a numeric first argument, and each of the
    six colour-channel setters on any instance and with any number, leave
    in [c] an unsigned 24-bit integer whose three byte fields, as the
    [rgb] view extracts them, lie between 0 and 255; the reads of [color]
    and [alpha] return the stored fields as they are. *)
Theorem packed_is_24_bit (NumberToString : Q -> string) :
  (forall colorMode n b c alpha,
     exists this,
       Color.new NumberToString colorMode (Number n) b c alpha = Normal this /\
       packedBytes (Color.c this)) /\
  (forall v this,
     packedBytes (Color.c (Color.set_red v this)) /\
     packedBytes (Color.c (Color.set_green v this)) /\
     packedBytes (Color.c (Color.set_blue v this)) /\
     packedBytes (Color.c (Color.set_hue v this)) /\
     packedBytes (Color.c (Color.set_saturation v this)) /\
     packedBytes (Color.c (Color.set_lightness v this))) /\
  (forall this,
     Color.get_color this = Color.c this /\
     Color.get_alpha this = Color.a this).
Proof.
  split; [| split].
  - intros colorMode n b c alpha. unfold Color.new.
    rewrite numeric_input_resolves. eexists. split; [reflexivity |].
    cbn [Color.c]. destruct colorMode;
      [apply RGB_packedBytes | apply HSL_packedBytes].
  - intros v this. repeat split.
    + destruct (set_red_shape v this) as (g & b & al & ->).
      apply RGB_packedBytes.
    + destruct (set_green_shape v this) as (r & b & al & ->).
      apply RGB_packedBytes.
    + destruct (set_blue_shape v this) as (r & g & al & ->).
      apply RGB_packedBytes.
    + destruct (set_hue_shape v this) as (s & l & al & ->).
      apply HSL_packedBytes.
    + destruct (set_saturation_shape v this) as (h & l & al & ->).
      apply HSL_packedBytes.
    + destruct (set_lightness_shape v this) as (h & s & al & ->).
      apply HSL_packedBytes.
  - intros this. split; reflexivity.
Qed.

(** A string with characters that are no digits is not numeric input:
    [parseInt] gives [NaN], which is stored as it is. *)
Remark invalid_digits_store_NaN (NumberToString : Q -> string) :
  Color.new NumberToString RGB (Hexadecimal "zzz") None None None =
  Normal (Color.mk NaN (ofZ 255) None None).
Proof. reflexivity. Qed.

(** C10.  None of the six colour-channel setters changes the stored alpha.
    The hex setter, when it returns, has replaced [c] and nothing else:
    alpha and both caches are the ones the instance had, also for a string
    of eight digits whose last byte is an alpha. *)
Theorem setters_keep_alpha (NumberToString : Q -> string)
    (colorMode : ColorMode) (this : Color.t) :
  (forall v,
     Color.a (Color.set_red v this) = Color.a this /\
     Color.a (Color.set_green v this) = Color.a this /\
     Color.a (Color.set_blue v this) = Color.a this /\
     Color.a (Color.set_hue v this) = Color.a this /\
     Color.a (Color.set_saturation v this) = Color.a this /\
     Color.a (Color.set_lightness v this) = Color.a this) /\
  (forall hex,
     match Color.set_hex NumberToString colorMode hex this with
     | Normal this' =>
         this' =
         Color.mk (Color.c this') (Color.a this) (Color.lhsl this)
           (Color.lrgb this)
     | Throw e => e = InvalidFormat
     end) /\
  Color.set_hex NumberToString colorMode "11223380" this =
    Normal (Color.mk (ofZ 0x112233) (Color.a this) (Color.lhsl this)
              (Color.lrgb this)).
Proof.
  split; [| split].
  - intros v. repeat split.
    + destruct (set_red_shape v this) as (g & b & al & ->).
      now rewrite assign_c_alpha, get_rgb_twice_alpha.
    + destruct (set_green_shape v this) as (r & b & al & ->).
      now rewrite assign_c_alpha, get_rgb_twice_alpha.
    + destruct (set_blue_shape v this) as (r & g & al & ->).
      now rewrite assign_c_alpha, get_rgb_twice_alpha.
    + destruct (set_hue_shape v this) as (s & l & al & ->).
      now rewrite assign_c_alpha, get_hsl_twice_alpha.
    + destruct (set_saturation_shape v this) as (h & l & al & ->).
      now rewrite assign_c_alpha, get_hsl_twice_alpha.
    + destruct (set_lightness_shape v this) as (h & s & al & ->).
      now rewrite assign_c_alpha, get_hsl_twice_alpha.
  - intros hex. unfold Color.set_hex.
    pose proof (parseParameters_outcome NumberToString colorMode
                  (Hexadecimal hex) None None None) as Hout.
    destruct (Color.parseParameters NumberToString colorMode
                (Hexadecimal hex) None None None) as [o | e].
    + reflexivity.
    + now destruct Hout as (-> & _).
  - reflexivity.
Qed.


(** * Further properties *)

(** ** Channel writes and reads *)

Lemma get_green_value this :
  fst (Color.get_green this) = RGBObject.green (fst (Color.get_rgb this)).
Proof. unfold Color.get_green. now destruct (Color.get_rgb this). Qed.

Lemma get_red_value this :
  fst (Color.get_red this) = RGBObject.red (fst (Color.get_rgb this)).
Proof. unfold Color.get_red. now destruct (Color.get_rgb this). Qed.

Lemma get_blue_value this :
  fst (Color.get_blue this) = RGBObject.blue (fst (Color.get_rgb this)).
Proof. unfold Color.get_blue. now destruct (Color.get_rgb this). Qed.

(** Two channel reads in a row on a coherent instance: both see the view
    of the packed value, and the packed value and alpha stay. *)
Lemma two_reads this :
  coherent this ->
  let t1 := snd (Color.get_rgb this) in
  let t2 := snd (Color.get_rgb t1) in
  fst (Color.get_rgb this) = Color.decodeRGB (Color.c this) /\
  fst (Color.get_rgb t1) = Color.decodeRGB (Color.c this) /\
  coherent t2 /\ Color.a t2 = Color.a this.
Proof.
  intros H. cbv zeta.
  destruct (get_rgb_coherent this H) as (E1 & _).
  destruct (get_rgb_again this H) as (E2 & H2 & _).
  split; [exact E1 |]. split; [exact E2 |]. split; [exact H2 |].
  apply get_rgb_twice_alpha.
Qed.

Lemma decodeRGB_bytes n :
  exists r g b,
    0 <= r <= 255 /\ 0 <= g <= 255 /\ 0 <= b <= 255 /\
    Color.decodeRGB n = RGBObject.mk (Some n) (ofZ r) (ofZ g) (ofZ b).
Proof.
  rewrite decodeRGB_fields.
  exists ((ToInt32 n / 2 ^ 16) mod 256), ((ToInt32 n / 2 ^ 8) mod 256),
    (ToInt32 n mod 256).
  repeat split; try (apply Z.mod_pos_bound; lia);
    match goal with
    | |- ?x mod 256 <= 255 =>
        pose proof (Z.mod_pos_bound x 256 ltac:(lia)); lia
    end.
Qed.

(** What [get rgb()] reads once [c] has been assigned the packed value of
    three numbers. *)
Lemma read_after_assign this r g b al :
  coherent this ->
  let this' :=
    Color.assign_c this
      (ColorObject.color (Color.getColorValueFromRGB r g b al)) in
  fst (Color.get_rgb this') =
  RGBObject.mk (Some (Color.c this'))
    (ofZ (ToInt32 (clamp r (ofZ 255) clampMinDefault)))
    (ofZ (ToInt32 (clamp g (ofZ 255) clampMinDefault)))
    (ofZ (ToInt32 (clamp b (ofZ 255) clampMinDefault))).
Proof.
  intros H. cbv zeta.
  assert (H' : coherent
                 (Color.assign_c this
                    (ColorObject.color (Color.getColorValueFromRGB r g b al))))
    by (apply assign_c_coherent;
        [exact H | apply packedBytes_integral, RGB_packedBytes]).
  destruct (get_rgb_coherent _ H') as (-> & _).
  unfold Color.assign_c, Color.getColorValueFromRGB.
  cbn [Color.c ColorObject.color].
  assert (Hr := ToInt32_within 255 _ ltac:(lia)
                  (clamp_within r 255 ltac:(lia))).
  assert (Hg := ToInt32_within 255 _ ltac:(lia)
                  (clamp_within g 255 ltac:(lia))).
  assert (Hb := ToInt32_within 255 _ ltac:(lia)
                  (clamp_within b 255 ltac:(lia))).
  rewrite (pack_bytes _ _ _ Hr Hg Hb).
  apply decodeRGB_of_bytes; assumption.
Qed.

Lemma ToInt32_clamp_byte k :
  0 <= k <= 255 -> ToInt32 (clamp (ofZ k) (ofZ 255) clampMinDefault) = k.
Proof. intros H. rewrite clamp_ofZ by assumption. apply ToInt32_ofZ. lia. Qed.

Lemma set_red_explicit v this :
  coherent this ->
  let o := Color.decodeRGB (Color.c this) in
  exists t2,
    coherent t2 /\
    Color.set_red v this =
    Color.assign_c t2
      (ColorObject.color
         (Color.getColorValueFromRGB v (RGBObject.green o) (RGBObject.blue o)
            (Color.a this))).
Proof.
  intros H. cbv zeta. destruct (two_reads this H) as (E1 & E2 & H2 & A2).
  exists (snd (Color.get_rgb (snd (Color.get_rgb this)))).
  split; [exact H2 |].
  unfold Color.set_red, Color.get_alpha.
  pose proof (get_green_value this) as V1.
  pose proof (get_green_state this) as S1.
  destruct (Color.get_green this) as [g t1]. cbn [fst snd] in V1, S1. subst t1.
  pose proof (get_blue_value (snd (Color.get_rgb this))) as V2.
  pose proof (get_blue_state (snd (Color.get_rgb this))) as S2.
  destruct (Color.get_blue (snd (Color.get_rgb this))) as [b t2].
  cbn [fst snd] in V2, S2. subst t2.
  rewrite V1, V2, E1, E2, A2. reflexivity.
Qed.

Lemma set_green_explicit v this :
  coherent this ->
  let o := Color.decodeRGB (Color.c this) in
  exists t2,
    coherent t2 /\
    Color.set_green v this =
    Color.assign_c t2
      (ColorObject.color
         (Color.getColorValueFromRGB (RGBObject.red o) v (RGBObject.blue o)
            (Color.a this))).
Proof.
  intros H. cbv zeta. destruct (two_reads this H) as (E1 & E2 & H2 & A2).
  exists (snd (Color.get_rgb (snd (Color.get_rgb this)))).
  split; [exact H2 |].
  unfold Color.set_green, Color.get_alpha.
  pose proof (get_red_value this) as V1.
  pose proof (get_red_state this) as S1.
  destruct (Color.get_red this) as [g t1]. cbn [fst snd] in V1, S1. subst t1.
  pose proof (get_blue_value (snd (Color.get_rgb this))) as V2.
  pose proof (get_blue_state (snd (Color.get_rgb this))) as S2.
  destruct (Color.get_blue (snd (Color.get_rgb this))) as [b t2].
  cbn [fst snd] in V2, S2. subst t2.
  rewrite V1, V2, E1, E2, A2. reflexivity.
Qed.

Lemma set_blue_explicit v this :
  coherent this ->
  let o := Color.decodeRGB (Color.c this) in
  exists t2,
    coherent t2 /\
    Color.set_blue v this =
    Color.assign_c t2
      (ColorObject.color
         (Color.getColorValueFromRGB (RGBObject.red o) (RGBObject.green o) v
            (Color.a this))).
Proof.
  intros H. cbv zeta. destruct (two_reads this H) as (E1 & E2 & H2 & A2).
  exists (snd (Color.get_rgb (snd (Color.get_rgb this)))).
  split; [exact H2 |].
  unfold Color.set_blue, Color.get_alpha.
  pose proof (get_red_value this) as V1.
  pose proof (get_red_state this) as S1.
  destruct (Color.get_red this) as [g t1]. cbn [fst snd] in V1, S1. subst t1.
  pose proof (get_green_value (snd (Color.get_rgb this))) as V2.
  pose proof (get_green_state (snd (Color.get_rgb this))) as S2.
  destruct (Color.get_green (snd (Color.get_rgb this))) as [b t2].
  cbn [fst snd] in V2, S2. subst t2.
  rewrite V1, V2, E1, E2, A2. reflexivity.
Qed.

(** [clamp] on an integer, then [ToInt32]. *)
Lemma ToInt32_clamp_integer k :
  ToInt32 (clamp (ofZ k) (ofZ 255) clampMinDefault) = Z.max 0 (Z.min k 255).
Proof.
  destruct (Z.lt_ge_cases k 0) as [Hneg | Hpos].
  - unfold clamp, clampMinDefault, ofZ, JS.min.
    rewrite compare_Num, Qcompare_inject_Z.
    destruct (Z.compare_spec k 255) as [He | Hl | Hg]; try lia.
    unfold JS.max. rewrite compare_Num, Qcompare_inject_Z.
    destruct (Z.compare_spec 0 k) as [He' | Hl' | Hg']; try lia.
    fold (ofZ 0). rewrite ToInt32_ofZ; lia.
  - destruct (Z.le_gt_cases k 255) as [Hle | Hgt].
    + rewrite ToInt32_clamp_byte; lia.
    + unfold clamp, clampMinDefault, ofZ, JS.min.
      rewrite compare_Num, Qcompare_inject_Z.
      destruct (Z.compare_spec k 255) as [He | Hl | Hg]; try lia.
      unfold JS.max. rewrite compare_Num, Qcompare_inject_Z.
      cbn [Z.compare Pos.compare]. fold (ofZ 255). rewrite ToInt32_ofZ; lia.
Qed.

(** X3.  On an instance a program can hold, after [red = v] the [rgb]
    view reads as red the integer part of [v] clamped to 0..255 (for an
    integer [v], [v] itself cut to that range), and as green and blue what
    it read before the write; likewise for [green = v] and [blue = v]. *)
Theorem rgb_write_then_read (NumberToString : Q -> string) v this :
  reachable NumberToString this ->
  let before := fst (Color.get_rgb this) in
  let stored := ofZ (ToInt32 (clamp v (ofZ 255) clampMinDefault)) in
  (let after := Color.set_red v this in
   fst (Color.get_rgb after) =
   RGBObject.mk (Some (Color.c after)) stored
     (RGBObject.green before) (RGBObject.blue before)) /\
  (let after := Color.set_green v this in
   fst (Color.get_rgb after) =
   RGBObject.mk (Some (Color.c after))
     (RGBObject.red before) stored (RGBObject.blue before)) /\
  (let after := Color.set_blue v this in
   fst (Color.get_rgb after) =
   RGBObject.mk (Some (Color.c after))
     (RGBObject.red before) (RGBObject.green before) stored) /\
  (forall k, v = ofZ k -> stored = ofZ (Z.max 0 (Z.min k 255))).
Proof.
  intros Hreach. apply reachable_coherent in Hreach. cbv zeta.
  destruct (get_rgb_coherent this Hreach) as (-> & _).
  destruct (decodeRGB_bytes (Color.c this)) as (r & g & b & Hr & Hg & Hb & E).
  split; [| split; [| split]];
    [| | | intros k ->; now rewrite ToInt32_clamp_integer].
  - destruct (set_red_explicit v this Hreach) as (t2 & H2 & ->).
    rewrite (read_after_assign t2 _ _ _ _ H2), E.
    cbn [RGBObject.red RGBObject.green RGBObject.blue].
    now rewrite !ToInt32_clamp_byte by assumption.
  - destruct (set_green_explicit v this Hreach) as (t2 & H2 & ->).
    rewrite (read_after_assign t2 _ _ _ _ H2), E.
    cbn [RGBObject.red RGBObject.green RGBObject.blue].
    now rewrite !ToInt32_clamp_byte by assumption.
  - destruct (set_blue_explicit v this Hreach) as (t2 & H2 & ->).
    rewrite (read_after_assign t2 _ _ _ _ H2), E.
    cbn [RGBObject.red RGBObject.green RGBObject.blue].
    now rewrite !ToInt32_clamp_byte by assumption.
Qed.

Lemma write_300_to_green_reads_255 :
  fst (Color.get_rgb (Color.set_green (ofZ 300) blackThenRed)) =
  RGBObject.mk (Some (ofZ 0xffff00)) (ofZ 255) (ofZ 255) (ofZ 0).
Proof.
  pose proof (rgb_write_then_read integerHost (ofZ 300) blackThenRed
                reachable_blackThenRed) as (_ & H & _).
  exact H.
Defined.

Lemma RGB_color_of_bytes r g b al :
  0 <= r <= 255 -> 0 <= g <= 255 -> 0 <= b <= 255 ->
  ColorObject.color (Color.getColorValueFromRGB (ofZ r) (ofZ g) (ofZ b) al) =
  ofZ (rgb24 r g b).
Proof.
  intros Hr Hg Hb. unfold Color.getColorValueFromRGB.
  cbn [ColorObject.color].
  rewrite pack_bytes; rewrite !ToInt32_clamp_byte by assumption; try assumption.
  reflexivity.
Qed.

(** X4.  On an instance a program can hold and whose packed value is an
    unsigned 24-bit integer, assigning a colour channel the value just
    read from it ([c.red = c.red], and so for green and blue) leaves the
    packed value as it was. *)
Theorem rgb_write_back_keeps_packed (NumberToString : Q -> string) this :
  reachable NumberToString this ->
  packedBytes (Color.c this) ->
  (let '(v, t) := Color.get_red this in
   Color.c (Color.set_red v t) = Color.c this) /\
  (let '(v, t) := Color.get_green this in
   Color.c (Color.set_green v t) = Color.c this) /\
  (let '(v, t) := Color.get_blue this in
   Color.c (Color.set_blue v t) = Color.c this).
Proof.
  intros Hreach (r & g & b & Hr & Hg & Hb & Ec & _ & Ed).
  apply reachable_coherent in Hreach.
  destruct (get_rgb_coherent this Hreach) as (E1 & H1).
  destruct (get_rgb_frame this) as (C1 & _).
  assert (Ed1 : Color.decodeRGB (Color.c (snd (Color.get_rgb this))) =
                RGBObject.mk (Some (Color.c this)) (ofZ r) (ofZ g) (ofZ b))
    by (rewrite C1; exact Ed).
  split; [| split].
  - pose proof (get_red_value this) as V. pose proof (get_red_state this) as S.
    destruct (Color.get_red this) as [v t]. cbn [fst snd] in V, S. subst t v.
    destruct (set_red_explicit (RGBObject.red (fst (Color.get_rgb this)))
                _ H1) as (t2 & _ & ->).
    rewrite E1, Ed, Ed1. cbn [Color.assign_c Color.c RGBObject.red
                                RGBObject.green RGBObject.blue].
    rewrite RGB_color_of_bytes by assumption. now rewrite Ec.
  - pose proof (get_green_value this) as V.
    pose proof (get_green_state this) as S.
    destruct (Color.get_green this) as [v t]. cbn [fst snd] in V, S. subst t v.
    destruct (set_green_explicit (RGBObject.green (fst (Color.get_rgb this)))
                _ H1) as (t2 & _ & ->).
    rewrite E1, Ed, Ed1. cbn [Color.assign_c Color.c RGBObject.red
                                RGBObject.green RGBObject.blue].
    rewrite RGB_color_of_bytes by assumption. now rewrite Ec.
  - pose proof (get_blue_value this) as V.
    pose proof (get_blue_state this) as S.
    destruct (Color.get_blue this) as [v t]. cbn [fst snd] in V, S. subst t v.
    destruct (set_blue_explicit (RGBObject.blue (fst (Color.get_rgb this)))
                _ H1) as (t2 & _ & ->).
    rewrite E1, Ed, Ed1. cbn [Color.assign_c Color.c RGBObject.red
                                RGBObject.green RGBObject.blue].
    rewrite RGB_color_of_bytes by assumption. now rewrite Ec.
Qed.

Lemma packedBytes_blackThenRed : packedBytes (Color.c blackThenRed).
Proof.
  exists 255, 0, 0. unfold rgb24.
  repeat split; try lia; reflexivity.
Qed.

Lemma red_written_back_on_red :
  (let '(v, t) := Color.get_red blackThenRed in
   Color.c (Color.set_red v t) = ofZ 0xff0000) /\
  (let '(v, t) := Color.get_green blackThenRed in
   Color.c (Color.set_green v t) = ofZ 0xff0000) /\
  (let '(v, t) := Color.get_blue blackThenRed in
   Color.c (Color.set_blue v t) = ofZ 0xff0000).
Proof.
  exact (rgb_write_back_keeps_packed integerHost blackThenRed
           reachable_blackThenRed packedBytes_blackThenRed).
Defined.

(** X5.  On an instance a program can hold, [hex = s] for a string [s] of
    six hexadecimal digits, with or without a leading [#], returns
    normally; afterwards the [rgb] view reads the three bytes the digits
    write, and alpha is what it was. *)
Theorem hex_write_then_read (NumberToString : Q -> string)
    (colorMode : ColorMode) (this : Color.t)
    (d1 d2 d3 d4 d5 d6 : ascii) (v1 v2 v3 v4 v5 v6 : Z) :
  reachable NumberToString this ->
  digitValue 16 d1 = Some v1 -> digitValue 16 d2 = Some v2 ->
  digitValue 16 d3 = Some v3 -> digitValue 16 d4 = Some v4 ->
  digitValue 16 d5 = Some v5 -> digitValue 16 d6 = Some v6 ->
  let s :=
    String d1 (String d2 (String d3 (String d4 (String d5 (String d6
      EmptyString))))) in
  let full := ofZ (rgb24 (byte v1 v2) (byte v3 v4) (byte v5 v6)) in
  let after := Color.assign_c this full in
  Color.set_hex NumberToString colorMode s this = Normal after /\
  Color.set_hex NumberToString colorMode (String "#" s) this = Normal after /\
  fst (Color.get_rgb after) =
    RGBObject.mk (Some full)
      (ofZ (byte v1 v2)) (ofZ (byte v3 v4)) (ofZ (byte v5 v6)) /\
  Color.get_alpha after = Color.get_alpha this.
Proof.
  intros Hreach H1 H2 H3 H4 H5 H6. cbv zeta.
  apply reachable_coherent in Hreach.
  unfold Color.set_hex.
  rewrite (parse_hash NumberToString colorMode None _ _ _ H1).
  rewrite (parse_six NumberToString colorMode None
             _ _ _ _ _ _ _ _ _ _ _ _ H1 H2 H3 H4 H5 H6).
  cbn [ColorObject.color].
  split; [reflexivity |]. split; [reflexivity |]. split; [| reflexivity].
  assert (H' : coherent
                 (Color.assign_c this
                    (ofZ (rgb24 (byte v1 v2) (byte v3 v4) (byte v5 v6)))))
    by (apply assign_c_coherent; [exact Hreach | right; now eexists]).
  destruct (get_rgb_coherent _ H') as (-> & _).
  cbn [Color.assign_c Color.c].
  pose proof (hex_digit_range _ _ H1). pose proof (hex_digit_range _ _ H2).
  pose proof (hex_digit_range _ _ H3). pose proof (hex_digit_range _ _ H4).
  pose proof (hex_digit_range _ _ H5). pose proof (hex_digit_range _ _ H6).
  apply decodeRGB_of_bytes; apply byte_range; assumption.
Qed.

Lemma hex_336699_written_on_red :
  Color.set_hex integerHost RGB "#336699" blackThenRed =
    Normal (Color.assign_c blackThenRed (ofZ 0x336699)) /\
  fst (Color.get_rgb (Color.assign_c blackThenRed (ofZ 0x336699))) =
    RGBObject.mk (Some (ofZ 0x336699)) (ofZ 51) (ofZ 102) (ofZ 153) /\
  Color.get_alpha (Color.assign_c blackThenRed (ofZ 0x336699)) = ofZ 255.
Proof.
  pose proof (hex_write_then_read integerHost RGB blackThenRed
                "3" "3" "6" "6" "9" "9" 3 3 6 6 9 9 reachable_blackThenRed
                eq_refl eq_refl eq_refl eq_refl eq_refl eq_refl)
    as (_ & Hset & Hview & Halpha).
  split; [exact Hset |]. split; [exact Hview | exact Halpha].
Defined.

(** X6.  A string of four characters whose first three are hexadecimal
    digits resolves, with no [b] and [c], to the packed value of the three
    digits each written twice, whatever the fourth character is; the alpha
    is [parseInt] of [0x] followed by the text of the alpha argument
    written twice, and is [NaN] when no alpha argument is given. *)
Theorem short_form_of_four (NumberToString : Q -> string)
    (colorMode : ColorMode) (alpha : optional number)
    (d1 d2 d3 d4 : ascii) (v1 v2 v3 : Z) :
  digitValue 16 d1 = Some v1 -> digitValue 16 d2 = Some v2 ->
  digitValue 16 d3 = Some v3 ->
  let s := String d1 (String d2 (String d3 (String d4 EmptyString))) in
  let packed := ofZ (rgb24 (byte v1 v1) (byte v2 v2) (byte v3 v3)) in
  Color.parseParameters NumberToString colorMode (Hexadecimal s)
    None None alpha =
  Normal (ColorObject.mk packed
            (parseInt ("0x" ++ Color.template NumberToString alpha
                            ++ Color.template NumberToString alpha))) /\
  Color.new NumberToString colorMode (Hexadecimal s) None None None =
  Normal (Color.mk packed NaN None None).
Proof.
  intros H1 H2 H3. cbv zeta.
  assert (Hparse : forall al,
    Color.parseParameters NumberToString colorMode
      (Hexadecimal (String d1 (String d2 (String d3 (String d4 EmptyString)))))
      None None al =
    Normal (ColorObject.mk
              (ofZ (rgb24 (byte v1 v1) (byte v2 v2) (byte v3 v3)))
              (parseInt ("0x" ++ Color.template NumberToString al
                              ++ Color.template NumberToString al)))).
  { intros al. unfold Color.parseParameters.
    rewrite (startsWith_hash_digit _ _ _ H1).
    cbn [String.length Nat.eqb negb andb].
    unfold Color.hexDigits, pop.
    cbn [Nat.eqb orb split list_ascii_of_string rev app fold_left].
    cbn [String.append].
    rewrite (parseInt_six d1 d1 d2 d2 d3 d3 _ _ _ _ _ _ H1 H1 H2 H2 H3 H3).
    reflexivity. }
  split; [apply Hparse |].
  unfold Color.new. rewrite Hparse. reflexivity.
Qed.

Lemma short_form_f08z :
  Color.parseParameters integerHost RGB (Hexadecimal "f08z") None None
    (Some (ofZ 7)) =
  Normal (ColorObject.mk (ofZ 0xff0088) (ofZ 0x77)) /\
  Color.new integerHost RGB (Hexadecimal "f08z") None None None =
  Normal (Color.mk (ofZ 0xff0088) NaN None None).
Proof.
  exact (short_form_of_four integerHost RGB (Some (ofZ 7)) "f" "0" "8" "z"
           15 0 8 eq_refl eq_refl eq_refl).
Defined.

(** ** What the HSL conversion can return *)

Lemma gtb_weaken h a b :
  a <= b -> gtb h (ofZ a) = false -> gtb h (ofZ b) = false.
Proof.
  intros Hab. destruct h as [ | | q | ]; try reflexivity; try discriminate.
  unfold gtb, ofZ. rewrite !compare_Num.
  assert (Hq : (inject_Z a <= inject_Z b)%Q) by (unfold Qle; simpl; lia).
  destruct (Qcompare_spec q (inject_Z a)); try discriminate; intros _;
    destruct (Qcompare_spec q (inject_Z b)); try reflexivity; lra.
Qed.

Lemma gtb_nonneg h a :
  0 <= a -> gtb h (ofZ a) = true -> leb (ofZ 0) h = true.
Proof.
  intros Ha. destruct h as [ | | q | ]; try reflexivity; try discriminate.
  unfold gtb, leb, ofZ. rewrite !compare_Num.
  assert (Hq : (inject_Z 0 <= inject_Z a)%Q) by (unfold Qle; simpl; lia).
  destruct (Qcompare_spec q (inject_Z a)); try discriminate; intros _.
  destruct (Qcompare_spec (inject_Z 0) q); try reflexivity. lra.
Qed.

Lemma sextant_two_cases h c x :
  (gtb h (ofZ 60) = true /\ Color.sextant h c x = (c, x, ofZ 0)) \/
  (gtb h (ofZ 60) = false /\ Color.sextant h c x = (ofZ 0, ofZ 0, ofZ 0)).
Proof.
  unfold Color.sextant. cbv zeta.
  destruct (gtb h (ofZ 60)) eqn:E.
  - left. now rewrite (gtb_nonneg h 60 ltac:(lia) E).
  - right. split; [reflexivity |].
    rewrite (gtb_weaken h 60 120 ltac:(lia) E).
    rewrite (gtb_weaken h 60 180 ltac:(lia) E).
    rewrite (gtb_weaken h 60 240 ltac:(lia) E).
    rewrite (gtb_weaken h 60 360 ltac:(lia) E).
    now rewrite !andb_false_r.
Qed.

Lemma ToInt32_scaled_mono p q :
  (0 <= p)%Q -> (p <= q)%Q -> (q <= 1)%Q ->
  0 <= ToInt32 (mul (Num p) (ofZ 255)) /\
  ToInt32 (mul (Num p) (ofZ 255)) <= ToInt32 (mul (Num q) (ofZ 255)) /\
  ToInt32 (mul (Num q) (ofZ 255)) <= 255.
Proof.
  intros H0 Hpq H1.
  change (mul (Num p) (ofZ 255)) with (Num (p * 255)).
  change (mul (Num q) (ofZ 255)) with (Num (q * 255)).
  assert (Hp : (0 <= p * 255)%Q) by lra.
  assert (Hq : (0 <= q * 255)%Q) by lra.
  assert (Hq' : (q * 255 <= inject_Z 255)%Q)
    by (change (inject_Z 255) with 255%Q; lra).
  assert (Hp' : (p * 255 <= inject_Z 255)%Q)
    by (change (inject_Z 255) with 255%Q; lra).
  pose proof (Qtrunc_bounds _ 255 Hp Hp') as Bp.
  pose proof (Qtrunc_bounds _ 255 Hq Hq') as Bq.
  unfold ToInt32. rewrite !wrap32_small by lia.
  rewrite (Qtrunc_nonneg_floor _ Hp), (Qtrunc_nonneg_floor _ Hq) in *.
  repeat split; try lia.
  apply Qfloor_resp_le. lra.
Qed.

(** X7.  Whatever its arguments, [getColorValueFromHSL] returns a packed
    value whose red byte is at least its green byte and whose green byte
    is at least its blue byte; and for a hue that is not above 60 after
    clamping the three bytes are equal, a gray. *)
Theorem hsl_conversion_orders_channels h s l a :
  exists r g b,
    ColorObject.color (Color.getColorValueFromHSL h s l a) =
      ofZ (rgb24 r g b) /\
    0 <= b /\ b <= g /\ g <= r /\ r <= 255 /\
    (gtb (clamp h (ofZ 360) clampMinDefault) (ofZ 60) = false ->
     r = g /\ g = b).
Proof.
  unfold Color.getColorValueFromHSL. cbv zeta.
  set (h' := clamp h (ofZ 360) clampMinDefault).
  set (s' := div (clamp s (ofZ 100) clampMinDefault) (ofZ 100)).
  set (l' := div (clamp l (ofZ 100) clampMinDefault) (ofZ 100)).
  assert (Hh : within 360 h') by (apply clamp_within; lia).
  assert (Hs : unit01 s') by (apply div_100_unit, clamp_within; lia).
  assert (Hl : unit01 l') by (apply div_100_unit, clamp_within; lia).
  pose proof (chroma_match_bounds l' s' Hl Hs) as Hcm. cbv zeta in Hcm.
  set (c := mul (sub (ofZ 1) (abs (sub (mul (ofZ 2) l') (ofZ 1)))) s') in *.
  set (m := sub l' (div c (ofZ 2))) in *.
  set (x := mul c (sub (ofZ 1)
                     (abs (sub (rem (div h' (ofZ 60)) (ofZ 2)) (ofZ 1))))).
  destruct Hcm as [Hm | (qc & qm & Hc & Hm & Hc0 & Hm0 & Hcm1)].
  - (* [m] is [NaN]: the three channels are [NaN] and pack to zero *)
    exists 0, 0, 0.
    destruct (Color.sextant h' c x) as [[r g] b].
    cbn [ColorObject.color]. rewrite Hm, !scaled_NaN.
    repeat split; try lia; reflexivity.
  - destruct (sextant_two_cases h' c x) as [(Hgt & ->) | (Hgt & ->)];
      cbn [ColorObject.color].
    + (* the first branch: [(c, x, 0)] *)
      assert (Hx : exists qx, x = Num qx /\ (0 <= qx)%Q /\ (qx <= qc)%Q).
      { destruct Hh as [Hnan | (qh & Hqh & Hh0 & Hh1)];
          [rewrite Hnan in Hgt; discriminate |].
        pose proof (secondary_bounds h' qc
                      (or_intror (ex_intro _ qh (conj Hqh (conj Hh0 Hh1))))
                      Hc0) as Hsec.
        cbv zeta in Hsec. fold c in Hsec. rewrite <- Hc in Hsec. fold x in Hsec.
        destruct Hsec as [Hnan | Hok]; [| exact Hok].
        exfalso. subst x. rewrite Hc, Hqh in Hnan.
        assert (Hp : (0 <= qh / 60)%Q)
          by (apply Qle_shift_div_l; [reflexivity | lra]).
        change (div (Num qh) (ofZ 60)) with (Num (qh / 60)) in Hnan.
        destruct (rem_2_bounds _ Hp) as (r & Er & _).
        rewrite Er in Hnan. discriminate Hnan. }
      destruct Hx as (qx & Ex & Hx0 & Hx1).
      rewrite Hc, Hm, Ex.
      change (add (Num qc) (Num qm)) with (Num (qc + qm)).
      change (add (Num qx) (Num qm)) with (Num (qx + qm)).
      change (add (ofZ 0) (Num qm)) with (Num (inject_Z 0 + qm)).
      change (inject_Z 0) with 0%Q.
      destruct (ToInt32_scaled_mono (0 + qm) (qx + qm)) as (B0 & B1 & _);
        [lra | lra | lra |].
      destruct (ToInt32_scaled_mono (qx + qm) (qc + qm)) as (_ & B2 & B3);
        [lra | lra | lra |].
      eexists _, _, _. split; [apply pack_bytes; lia |].
      split; [exact B0 |]. split; [exact B1 |]. split; [exact B2 |].
      split; [exact B3 |].
      intros Hfalse. rewrite Hfalse in Hgt. discriminate.
    + (* no branch: [(0, 0, 0)] *)
      rewrite Hm.
      change (add (ofZ 0) (Num qm)) with (Num (inject_Z 0 + qm)).
      change (inject_Z 0) with 0%Q.
      destruct (ToInt32_scaled_mono (0 + qm) (0 + qm)) as (B0 & _ & B1);
        [lra | lra | lra |].
      eexists _, _, _. split; [apply pack_bytes; lia |].
      split; [exact B0 |]. split; [apply Z.le_refl |].
      split; [apply Z.le_refl |]. split; [exact B1 |].
      intros _. split; reflexivity.
Qed.

(** ** The ranges of the HSL view *)

Lemma min_Num p q :
  exists m, JS.min (Num p) (Num q) = Num m /\ (m <= p)%Q /\ (m <= q)%Q /\
            (m = p \/ m = q).
Proof.
  unfold JS.min. rewrite compare_Num.
  destruct (Qcompare_spec p q) as [He | Hl | Hg];
    [exists p | exists p | exists q];
    (split; [reflexivity |]); repeat split;
    try apply Qle_refl; try (now left); try (now right);
    try (now apply Qlt_le_weak); rewrite He; apply Qle_refl.
Qed.

Lemma max_Num p q :
  exists m, JS.max (Num p) (Num q) = Num m /\ (p <= m)%Q /\ (q <= m)%Q /\
            (m = p \/ m = q).
Proof.
  unfold JS.max. rewrite compare_Num.
  destruct (Qcompare_spec p q) as [He | Hl | Hg];
    [exists p | exists q | exists p];
    (split; [reflexivity |]); repeat split;
    try apply Qle_refl; try (now left); try (now right);
    try (now apply Qlt_le_weak); rewrite He; apply Qle_refl.
Qed.

Lemma Qtrunc_small (q : Q) : (-1 < q)%Q -> (q < 1)%Q -> Qtrunc q = 0.
Proof.
  destruct q as [n d]. unfold Qlt, Qtrunc. simpl. intros Hlo Hhi.
  rewrite Z.mul_1_r in Hhi.
  destruct (Z.lt_ge_cases n 0) as [Hneg | Hpos].
  - replace n with (- (- n)) by lia.
    rewrite Z.quot_opp_l by lia. rewrite Z.quot_small; lia.
  - apply Z.quot_small. lia.
Qed.

Lemma div_Num_pos n d : (0 < d)%Q -> div (Num n) (Num d) = Num (n / d).
Proof.
  intros Hd. unfold div.
  destruct (Qeq_bool d 0) eqn:E; [| reflexivity].
  apply Qeq_bool_eq in E. lra.
Qed.

Lemma add_ofZ a b : add (ofZ a) (ofZ b) = ofZ (a + b).
Proof.
  unfold add, ofZ, inject_Z, Qplus. cbn [Qnum Qden Pos.mul].
  now rewrite !Z.mul_1_r.
Qed.

(** [Math.round] of a number between two integers. *)
Lemma round_between q a b :
  (inject_Z a <= q)%Q -> (q <= inject_Z b)%Q ->
  exists k, round (Num q) = ofZ k /\ a <= k <= b.
Proof.
  intros Ha Hb. exists (Qfloor (q + (1 # 2))). split; [reflexivity |].
  pose proof (Qfloor_le (q + (1 # 2))) as Hlo.
  pose proof (Qlt_floor (q + (1 # 2))) as Hhi.
  rewrite inject_Z_plus in Hhi. change (inject_Z 1) with 1%Q in Hhi.
  set (k := Qfloor (q + (1 # 2))) in *.
  assert (H1 : (inject_Z a < inject_Z k + 1)%Q) by lra.
  assert (H2 : (inject_Z k <= inject_Z b + (1 # 2))%Q) by lra.
  unfold Qlt in H1. unfold Qle in H2. simpl in H1, H2. lia.
Qed.

(** [+x.toFixed(1)] of a number between 0 and 100. *)
Lemma toFixed1_percent q :
  (0 <= q)%Q -> (q <= 100)%Q ->
  exists r, toFixed1 (Num q) = Num r /\ (0 <= r)%Q /\ (r <= 100)%Q /\
            exists n, (r == inject_Z n / 10)%Q.
Proof.
  intros H0 H1. unfold toFixed1.
  assert (Habs : (Qabs q == q)%Q) by (now apply Qabs_pos).
  destruct (Qle_bool (inject_Z (10 ^ 21)) (Qabs q)) eqn:Ebig.
  - apply Qle_bool_iff in Ebig. rewrite Habs in Ebig.
    assert (Hbig : (100 < inject_Z (10 ^ 21))%Q) by reflexivity. lra.
  - cbv zeta.
    assert (Hpos : Qle_bool 0 q = true) by (now apply Qle_bool_iff).
    rewrite Hpos. eexists. split; [reflexivity |].
    rewrite Qred_correct.
    pose proof (Qfloor_le (Qabs q * 10 + (1 # 2))) as Hlo.
    pose proof (Qlt_floor (Qabs q * 10 + (1 # 2))) as Hhi.
    rewrite inject_Z_plus in Hhi. change (inject_Z 1) with 1%Q in Hhi.
    set (n := Qfloor (Qabs q * 10 + (1 # 2))) in *.
    assert (Hn0 : 0 <= n).
    { assert (H : (inject_Z 0 < inject_Z n + 1)%Q)
        by (change (inject_Z 0) with 0%Q; lra).
      unfold Qlt in H. simpl in H. lia. }
    assert (Hn1 : n <= 1000).
    { assert (H : (inject_Z n <= inject_Z 1000 + (1 # 2))%Q)
        by (change (inject_Z 1000) with 1000%Q; lra).
      unfold Qle in H. simpl in H. lia. }
    assert (Q0 : (0 <= inject_Z n)%Q) by (unfold Qle; simpl; lia).
    assert (Q1 : (inject_Z n <= 1000)%Q) by (unfold Qle; simpl; lia).
    split; [| split].
    + apply Qle_shift_div_l; [reflexivity | lra].
    + apply Qle_shift_div_r; [reflexivity | lra].
    + exists n. apply Qred_correct.
Qed.

(** The quotient of a difference of two channels by [delta]. *)
Lemma channel_ratio p q mn mx :
  (mn <= p)%Q -> (p <= mx)%Q -> (mn <= q)%Q -> (q <= mx)%Q ->
  (0 < mx + - mn)%Q ->
  (-1 <= (p + - q) / (mx + - mn))%Q /\ ((p + - q) / (mx + - mn) <= 1)%Q.
Proof.
  intros Hp0 Hp1 Hq0 Hq1 Hd. split.
  - apply Qle_shift_div_l; [assumption | lra].
  - apply Qle_shift_div_r; [assumption | lra].
Qed.

(** [u % 6] for [u] between -1 and 1 is [u]. *)
Lemma rem_6_small u :
  (-1 <= u)%Q -> (u <= 1)%Q ->
  exists e, rem (Num u) (ofZ 6) = Num e /\ (e == u)%Q.
Proof.
  intros Hlo Hhi. unfold rem, ofZ.
  change (Qeq_bool (inject_Z 6) 0) with false. cbv iota.
  eexists. split; [reflexivity |].
  rewrite Qtrunc_small.
  - change (inject_Z 0) with 0%Q. ring.
  - change (inject_Z 6) with 6%Q.
    apply Qlt_shift_div_l; [reflexivity | lra].
  - change (inject_Z 6) with 6%Q.
    apply Qlt_shift_div_r; [reflexivity | lra].
Qed.

(** The hue, from the sector value to degrees. *)
Lemma hue_degrees e :
  (-1 <= e)%Q -> (e <= 5)%Q ->
  let h := round (mul (Num e) (ofZ 60)) in
  exists k, (if ltb h (ofZ 0) then add h (ofZ 360) else h) = ofZ k /\
            0 <= k < 360.
Proof.
  intros Hlo Hhi. cbv zeta.
  change (mul (Num e) (ofZ 60)) with (Num (e * 60)).
  destruct (round_between (e * 60) (-60) 300) as (k & -> & Hk).
  - change (inject_Z (-60)) with (-60)%Q. lra.
  - change (inject_Z 300) with 300%Q. lra.
  - unfold ltb, ofZ. rewrite compare_Num, Qcompare_inject_Z.
    destruct (Z.compare_spec k 0) as [He | Hl | Hg].
    + exists k. split; [reflexivity | lia].
    + exists (k + 360). split; [apply add_ofZ | lia].
    + exists k. split; [reflexivity | lia].
Qed.

Lemma unit_channel k :
  0 <= k <= 255 ->
  exists q, div (ofZ k) (ofZ 255) = Num q /\ (0 <= q)%Q /\ (q <= 1)%Q.
Proof.
  intros Hk. exists (inject_Z k / 255)%Q. split; [reflexivity |].
  assert (H0 : (0 <= inject_Z k)%Q) by (unfold Qle; simpl; lia).
  assert (H1 : (inject_Z k <= 255)%Q) by (unfold Qle; simpl; lia).
  split.
  - apply Qle_shift_div_l; [reflexivity | lra].
  - apply Qle_shift_div_r; [reflexivity | lra].
Qed.

Lemma eqb_zero_cases d :
  (0 <= d)%Q ->
  ((d == 0)%Q /\ eqb (Num d) (ofZ 0) = true) \/
  ((0 < d)%Q /\ eqb (Num d) (ofZ 0) = false).
Proof.
  intros Hd. unfold eqb, ofZ. rewrite compare_Num.
  change (inject_Z 0) with 0%Q.
  destruct (Qcompare_spec d 0) as [E | E | E].
  - left. now split.
  - exfalso. lra.
  - right. now split.
Qed.

(** What [get hsl()] computes from three bytes. *)
Lemma encodeHSL_ranges color kr kg kb :
  0 <= kr <= 255 -> 0 <= kg <= 255 -> 0 <= kb <= 255 ->
  exists h s l,
    Color.encodeHSL color (ofZ kr) (ofZ kg) (ofZ kb) =
      HSLObject.mk (Some color) (ofZ h) (Num s) (Num l) /\
    0 <= h < 360 /\
    (0 <= s)%Q /\ (s <= 100)%Q /\ (0 <= l)%Q /\ (l <= 100)%Q /\
    (exists n, (s == inject_Z n / 10)%Q) /\
    (exists n, (l == inject_Z n / 10)%Q).
Proof.
  intros Hr Hg Hb. unfold Color.encodeHSL. cbv zeta.
  destruct (unit_channel kr Hr) as (r & -> & Hr0 & Hr1).
  destruct (unit_channel kg Hg) as (g & -> & Hg0 & Hg1).
  destruct (unit_channel kb Hb) as (b & -> & Hb0 & Hb1).
  destruct (min_Num r g) as (m1 & -> & M1r & M1g & M1c).
  destruct (min_Num m1 b) as (mn & -> & Mn1 & Mnb & Mnc).
  destruct (max_Num r g) as (x1 & -> & X1r & X1g & X1c).
  destruct (max_Num x1 b) as (mx & -> & Mx1 & Mxb & Mxc).
  assert (Hmn0 : (0 <= mn)%Q) by (destruct Mnc, M1c; subst; assumption).
  assert (Hmx1 : (mx <= 1)%Q) by (destruct Mxc, X1c; subst; assumption).
  assert (Hmnr : (mn <= r)%Q) by lra. assert (Hmng : (mn <= g)%Q) by lra.
  assert (Hmxr : (r <= mx)%Q) by lra. assert (Hmxg : (g <= mx)%Q) by lra.
  change (sub (Num mx) (Num mn)) with (Num (mx + - mn)).
  change (add (Num mx) (Num mn)) with (Num (mx + mn)).
  change (div (Num (mx + mn)) (ofZ 2)) with (Num ((mx + mn) / 2)).
  change (mul (ofZ 2) (Num ((mx + mn) / 2)))
    with (Num (inject_Z 2 * ((mx + mn) / 2))).
  change (mul (Num ((mx + mn) / 2)) (ofZ 100))
    with (Num ((mx + mn) / 2 * inject_Z 100)).
  change (inject_Z 2) with 2%Q. change (inject_Z 100) with 100%Q.
  (* lightness *)
  destruct (toFixed1_percent ((mx + mn) / 2 * 100))
    as (l & El & Hl0 & Hl1 & Hl10).
  { assert (H : (0 <= (mx + mn) / 2)%Q)
      by (apply Qle_shift_div_l; [reflexivity | lra]). lra. }
  { assert (H : ((mx + mn) / 2 <= 1)%Q)
      by (apply Qle_shift_div_r; [reflexivity | lra]). lra. }
  rewrite El.
  destruct (eqb_zero_cases (mx + - mn)) as [(Ed & Ez) | (Ed & Ez)];
    [lra | |]; rewrite !Ez.
  - (* delta is zero *)
    exists 0, 0%Q, l.
    split; [reflexivity |].
    repeat split; try lia; try assumption; try lra.
    exists 0. reflexivity.
  - (* delta is positive *)
    assert (Hd : (0 < mx + - mn)%Q) by lra.
    (* saturation *)
    assert (Hmid : ((2 * ((mx + mn) / 2) + - (1)) == mx + mn - 1)%Q) by field.
    assert (Habs : (Qabs (2 * ((mx + mn) / 2) + - (1)) <= 1 - (mx + - mn))%Q).
    { apply Qabs_Qle_condition. rewrite Hmid. split; lra. }
    change (sub (Num (2 * ((mx + mn) / 2))) (ofZ 1))
      with (Num (2 * ((mx + mn) / 2) + - inject_Z 1)).
    change (inject_Z 1) with 1%Q.
    change (abs (Num (2 * ((mx + mn) / 2) + - (1))))
      with (Num (Qabs (2 * ((mx + mn) / 2) + - (1)))).
    set (t := Qabs (2 * ((mx + mn) / 2) + - (1))) in *.
    change (sub (ofZ 1) (Num t)) with (Num (inject_Z 1 + - t)).
    change (inject_Z 1) with 1%Q.
    assert (Hden : (0 < 1 + - t)%Q) by lra.
    rewrite (div_Num_pos _ _ Hden).
    change (mul (Num ((mx + - mn) / (1 + - t))) (ofZ 100))
      with (Num ((mx + - mn) / (1 + - t) * inject_Z 100)).
    change (inject_Z 100) with 100%Q.
    destruct (toFixed1_percent ((mx + - mn) / (1 + - t) * 100))
      as (s & Es & Hs0 & Hs1 & Hs10).
    { assert (H : (0 <= (mx + - mn) / (1 + - t))%Q)
        by (apply Qle_shift_div_l; [assumption | lra]). lra. }
    { assert (H : ((mx + - mn) / (1 + - t) <= 1)%Q)
        by (apply Qle_shift_div_r; [assumption | lra]). lra. }
    rewrite Es.
    (* hue *)
    assert (Hhue : forall e, (-1 <= e)%Q -> (e <= 5)%Q ->
      exists h,
        (if ltb (round (mul (Num e) (ofZ 60))) (ofZ 0)
         then add (round (mul (Num e) (ofZ 60))) (ofZ 360)
         else round (mul (Num e) (ofZ 60))) = ofZ h /\ 0 <= h < 360)
      by (intros e He0 He1; exact (hue_degrees e He0 He1)).
    change (sub (Num g) (Num b)) with (Num (g + - b)).
    change (sub (Num b) (Num r)) with (Num (b + - r)).
    change (sub (Num r) (Num g)) with (Num (r + - g)).
    rewrite !(div_Num_pos _ _ Hd).
    destruct (channel_ratio g b mn mx) as (G0 & G1); try assumption; try lra.
    destruct (channel_ratio b r mn mx) as (B0 & B1); try assumption; try lra.
    destruct (channel_ratio r g mn mx) as (R0 & R1); try assumption; try lra.
    destruct (eqb (Num mx) (Num r)).
    + destruct (rem_6_small _ G0 G1) as (e & -> & Ee).
      destruct (Hhue e) as (h & -> & Hh); [lra | lra |].
      exists h, s, l. split; [reflexivity |].
      repeat split; try lia; assumption.
    + destruct (eqb (Num mx) (Num g)).
      * change (add (Num ((b + - r) / (mx + - mn))) (ofZ 2))
          with (Num ((b + - r) / (mx + - mn) + inject_Z 2)).
        change (inject_Z 2) with 2%Q.
        destruct (Hhue ((b + - r) / (mx + - mn) + 2)%Q) as (h & -> & Hh);
          [lra | lra |].
        exists h, s, l. split; [reflexivity |].
        repeat split; try lia; assumption.
      * change (add (Num ((r + - g) / (mx + - mn))) (ofZ 4))
          with (Num ((r + - g) / (mx + - mn) + inject_Z 4)).
        change (inject_Z 4) with 4%Q.
        destruct (Hhue ((r + - g) / (mx + - mn) + 4)%Q) as (h & -> & Hh);
          [lra | lra |].
        exists h, s, l. split; [reflexivity |].
        repeat split; try lia; assumption.
Qed.

(** X8.  On an instance a program can hold, the [hsl] view has an integer
    hue from 0 to 359 and a saturation and a lightness between 0 and 100,
    each a whole number of tenths. *)
Theorem hsl_view_ranges (NumberToString : Q -> string) this :
  reachable NumberToString this ->
  exists h s l,
    fst (Color.get_hsl this) =
      HSLObject.mk (Some (Color.c this)) (ofZ h) (Num s) (Num l) /\
    0 <= h < 360 /\
    (0 <= s)%Q /\ (s <= 100)%Q /\ (0 <= l)%Q /\ (l <= 100)%Q /\
    (exists n, (s == inject_Z n / 10)%Q) /\
    (exists n, (l == inject_Z n / 10)%Q).
Proof.
  intros Hreach. apply reachable_coherent in Hreach.
  destruct (get_hsl_coherent this Hreach) as (-> & _).
  unfold hslOf. cbv zeta.
  destruct (decodeRGB_bytes (Color.c this)) as (r & g & b & Hr & Hg & Hb & ->).
  cbn [RGBObject.red RGBObject.green RGBObject.blue].
  apply encodeHSL_ranges; assumption.
Qed.

Lemma hsl_view_of_red_in_range :
  exists h s l,
    fst (Color.get_hsl blackThenRed) =
      HSLObject.mk (Some (ofZ 0xff0000)) (ofZ h) (Num s) (Num l) /\
    0 <= h < 360 /\
    (0 <= s)%Q /\ (s <= 100)%Q /\ (0 <= l)%Q /\ (l <= 100)%Q /\
    (exists n, (s == inject_Z n / 10)%Q) /\
    (exists n, (l == inject_Z n / 10)%Q).
Proof.
  exact (hsl_view_ranges integerHost blackThenRed reachable_blackThenRed).
Defined.

(** ** [fmath] *)

Ltac compare_cases :=
  repeat first
    [ rewrite compare_Num
    | match goal with
      | |- context [Qcompare ?a ?b] =>
          destruct (Qcompare_spec a b); cbv iota
      end ];
  try reflexivity; try (exfalso; lra).

(** X9.  With finite bounds [min <= max] and a value that is not [NaN],
    [clamp] returns a finite number between the bounds, and a value that
    already lies between them comes back equal to itself. *)
Theorem clamp_stays_in_bounds (v : number) (hi lo : Q) :
  (lo <= hi)%Q -> v <> NaN ->
  exists q,
    clamp v (Num hi) (Num lo) = Num q /\
    (lo <= q)%Q /\ (q <= hi)%Q /\
    (forall p, v = Num p -> (lo <= p)%Q -> (p <= hi)%Q -> (q == p)%Q).
Proof.
  intros Hbounds Hv. unfold clamp.
  destruct v as [ | | p | ]; [contradiction | | |].
  - change (JS.min NegInfinity (Num hi)) with NegInfinity.
    change (JS.max (Num lo) NegInfinity) with (Num lo).
    exists lo. split; [reflexivity |].
    split; [apply Qle_refl |]. split; [exact Hbounds | discriminate].
  - destruct (min_Num p hi) as (m & -> & Hmp & Hmh & Hmc).
    destruct (max_Num lo m) as (q & -> & Hql & Hqm & Hqc).
    exists q. split; [reflexivity |]. split; [exact Hql |].
    split; [destruct Hqc; subst; assumption |].
    intros p' [= <-] Hlo Hhi.
    destruct Hqc as [-> | ->], Hmc as [-> | ->]; lra.
  - change (JS.min Infinity (Num hi)) with (Num hi).
    destruct (max_Num lo hi) as (q & -> & Hql & Hqh & Hqc).
    exists q. split; [reflexivity |]. split; [exact Hql |].
    split; [destruct Hqc; subst; [exact Hbounds | apply Qle_refl] |].
    discriminate.
Qed.

Lemma clamp_7_between_0_and_255 :
  exists q,
    clamp (Num 7) (Num 255) (Num 0) = Num q /\
    (0 <= q)%Q /\ (q <= 255)%Q /\
    (forall p, Num 7 = Num p -> (0 <= p)%Q -> (p <= 255)%Q -> (q == p)%Q).
Proof.
  apply (clamp_stays_in_bounds (Num 7) 255 0); [lra | discriminate].
Defined.

(** X10.  With finite bounds given the wrong way round ([max < min]),
    [clamp] returns [min] for every value that is not [NaN]; and a [NaN]
    value or bound gives [NaN]. *)
Theorem clamp_inverted_bounds (v : number) (hi lo : Q) :
  (hi < lo)%Q ->
  (v <> NaN -> clamp v (Num hi) (Num lo) = Num lo) /\
  clamp NaN (Num hi) (Num lo) = NaN /\
  clamp v NaN (Num lo) = NaN /\
  clamp v (Num hi) NaN = NaN.
Proof.
  intros Hinv. split; [| split; [| split]].
  - intros Hv. unfold clamp.
    destruct v as [ | | p | ]; [contradiction | reflexivity | |].
    + destruct (min_Num p hi) as (m & -> & Hmp & Hmh & _).
      unfold JS.max. compare_cases.
    + change (JS.min Infinity (Num hi)) with (Num hi).
      unfold JS.max. compare_cases.
  - reflexivity.
  - unfold clamp. now destruct v.
  - unfold clamp, JS.max. now destruct (JS.min v (Num hi)).
Qed.

Lemma clamp_5_between_10_and_0 :
  (Num 5 <> NaN -> clamp (Num 5) (Num 0) (Num 10) = Num 10) /\
  clamp NaN (Num 0) (Num 10) = NaN /\
  clamp (Num 5) NaN (Num 10) = NaN /\
  clamp (Num 5) (Num 0) NaN = NaN.
Proof. apply (clamp_inverted_bounds (Num 5) 0 10). reflexivity. Defined.

(** X11.  Clamping twice with the same finite bounds is clamping once,
    whatever the value and whichever way round the bounds are. *)
Theorem clamp_idempotent (v : number) (hi lo : Q) :
  clamp (clamp v (Num hi) (Num lo)) (Num hi) (Num lo) =
  clamp v (Num hi) (Num lo).
Proof.
  unfold clamp.
  assert (Hfin : forall m,
    JS.max (Num lo) (JS.min (JS.max (Num lo) (Num m)) (Num hi)) =
    JS.max (Num lo) (Num m) \/ (hi < m)%Q).
  { intros m. destruct (Qlt_le_dec hi m) as [Hlt | Hle]; [now right | left].
    unfold JS.max, JS.min. compare_cases. }
  destruct v as [ | | p | ].
  - reflexivity.
  - change (JS.min NegInfinity (Num hi)) with NegInfinity.
    change (JS.max (Num lo) NegInfinity) with (Num lo).
    unfold JS.max, JS.min. compare_cases.
  - destruct (min_Num p hi) as (m & Em & Hmp & Hmh & _). rewrite Em.
    destruct (Hfin m) as [E | Hbad]; [exact E | lra].
  - change (JS.min Infinity (Num hi)) with (Num hi).
    destruct (Hfin hi) as [E | Hbad]; [exact E | lra].
Qed.







(** ** Vectors *)

Lemma truthy_is_not_zero v :
  JS.falsy (Some v) = false -> eqb v (ofZ 0) = false.
Proof.
  destruct v as [ | | q | ]; try discriminate; try reflexivity.
  unfold JS.falsy, eqb, ofZ. rewrite compare_Num. intros Hq.
  change (inject_Z 0) with 0%Q.
  destruct (Qcompare_spec q 0) as [E | E | E]; try reflexivity.
  apply Qeq_bool_iff in E. congruence.
Qed.

(** The second component the scalar form gives: the first when [b] is
    falsy, and otherwise [b], which is then not zero. *)
Lemma orElse_cases b a :
  orElse b a = a \/ eqb (orElse b a) (ofZ 0) = false.
Proof.
  unfold orElse. destruct b as [v |]; [| now left].
  destruct (JS.falsy (Some v)) eqn:E; [now left | right].
  now apply truthy_is_not_zero.
Qed.

(** X14.  A [Vector2] built from scalars never has a zero [y] beside a
    non-zero [x]: when the second argument is missing, zero or [NaN] the
    first is used for both components.  So the static [left] and [right]
    are (-1, -1) and (1, 1), while [up] and [down] are (0, -1) and
    (0, 1). *)
Theorem vector2_scalars_never_on_x_axis (a : number) (b : optional number) :
  let v := Vector2.new (Some (Vector2.Scalar a)) b in
  Vector2.x v = a /\
  (JS.falsy b = true -> Vector2.y v = a) /\
  (eqb (Vector2.y v) (ofZ 0) = true -> eqb (Vector2.x v) (ofZ 0) = true) /\
  Vector2.left = Vector2.mk (ofZ (-1)) (ofZ (-1)) /\
  Vector2.right = Vector2.mk (ofZ 1) (ofZ 1) /\
  Vector2.up = Vector2.mk (ofZ 0) (ofZ (-1)) /\
  Vector2.down = Vector2.mk (ofZ 0) (ofZ 1).
Proof.
  cbv zeta. unfold Vector2.new, Vector2.parseParameters.
  cbn [Point.x Point.y Vector2.x Vector2.y].
  split; [reflexivity |]. split; [| split].
  - intros Hb. unfold orElse. destruct b as [v |]; [| reflexivity].
    now rewrite Hb.
  - destruct (orElse_cases b a) as [-> | E]; [trivial | congruence].
  - repeat split; reflexivity.
Qed.

(** X15.  A [Vector3] built from scalars never has a zero [y] or a zero
    [z] beside a non-zero [x].  So the static [left] and [right] are
    (-1, -1, -1) and (1, 1, 1), while [up], [down], [back] and [forth]
    are the unit vectors their names say. *)
Theorem vector3_scalars_never_on_x_axis (a : number)
    (b c : optional number) :
  let v := Vector3.new (Some (Vector3.Scalar a)) b c in
  Vector3.x v = a /\
  (JS.falsy b = true -> Vector3.y v = a) /\
  (JS.falsy c = true -> Vector3.z v = a) /\
  (eqb (Vector3.y v) (ofZ 0) = true -> eqb (Vector3.x v) (ofZ 0) = true) /\
  (eqb (Vector3.z v) (ofZ 0) = true -> eqb (Vector3.x v) (ofZ 0) = true) /\
  Vector3.left = Vector3.mk (ofZ (-1)) (ofZ (-1)) (ofZ (-1)) /\
  Vector3.right = Vector3.mk (ofZ 1) (ofZ 1) (ofZ 1) /\
  Vector3.up = Vector3.mk (ofZ 0) (ofZ (-1)) (ofZ 0) /\
  Vector3.down = Vector3.mk (ofZ 0) (ofZ 1) (ofZ 0) /\
  Vector3.back = Vector3.mk (ofZ 0) (ofZ 0) (ofZ (-1)) /\
  Vector3.forth = Vector3.mk (ofZ 0) (ofZ 0) (ofZ 1).
Proof.
  cbv zeta. unfold Vector3.new, Vector3.parseParameters, Vector3.zAsNumber.
  cbn [Point.x Point.y Point.z Vector3.x Vector3.y Vector3.z].
  split; [reflexivity |]. split; [| split; [| split; [| split]]].
  - intros Hb. unfold orElse. destruct b as [v |]; [| reflexivity].
    now rewrite Hb.
  - intros Hc. unfold orElse. destruct c as [v |]; [| reflexivity].
    now rewrite Hc.
  - destruct (orElse_cases b a) as [-> | E]; [trivial | congruence].
  - destruct (orElse_cases c a) as [-> | E]; [trivial | congruence].
  - repeat split; reflexivity.
Qed.

Lemma eqb_sym u v : eqb u v = eqb v u.
Proof.
  destruct u as [ | | p | ], v as [ | | q | ]; try reflexivity.
  unfold eqb. rewrite !compare_Num.
  rewrite <- (Qcompare_antisym p q). now destruct (p ?= q)%Q.
Qed.

Lemma eqb_refl_iff u : eqb u u = true <-> u <> NaN.
Proof.
  destruct u as [ | | p | ]; split; try discriminate; try reflexivity;
    try contradiction.
  - intros _. unfold eqb. rewrite compare_Num.
    now rewrite (proj1 (Qeq_alt p p) (Qeq_refl p)).
Qed.

(** X16.  [equals] is symmetric on both vector classes, and a vector
    equals itself exactly when none of its components is [NaN]. *)
Theorem vector_equals_symmetric_and_reflexive :
  (forall u v : Vector2.t, Vector2.equals u v = Vector2.equals v u) /\
  (forall v : Vector2.t,
     Vector2.equals v v = true <->
     Vector2.x v <> NaN /\ Vector2.y v <> NaN) /\
  (forall u v : Vector3.t, Vector3.equals u v = Vector3.equals v u) /\
  (forall v : Vector3.t,
     Vector3.equals v v = true <->
     Vector3.x v <> NaN /\ Vector3.y v <> NaN /\ Vector3.z v <> NaN).
Proof.
  split; [| split; [| split]].
  - intros u v. unfold Vector2.equals.
    now rewrite (eqb_sym (Vector2.x v)), (eqb_sym (Vector2.y v)).
  - intros v. unfold Vector2.equals.
    rewrite andb_true_iff, !eqb_refl_iff. reflexivity.
  - intros u v. unfold Vector3.equals.
    now rewrite (eqb_sym (Vector3.x v)), (eqb_sym (Vector3.y v)),
      (eqb_sym (Vector3.z v)).
  - intros v. unfold Vector3.equals.
    rewrite !andb_true_iff, !eqb_refl_iff. tauto.
Qed.

Lemma eqb_Qeq p q : (p == q)%Q -> eqb (Num p) (Num q) = true.
Proof.
  intros E. unfold eqb. rewrite compare_Num.
  now rewrite (proj1 (Qeq_alt p q) E).
Qed.

(** X17.  On vectors with finite components the static [add] and [mult]
    of both classes do not depend on the order of their two arguments:
    the two results are [equals]. *)
Theorem vector_add_mult_commute :
  (forall ax ay bx by_ : Q,
     let a := Vector2.mk (Num ax) (Num ay) in
     let b := Vector2.mk (Num bx) (Num by_) in
     Vector2.equals (Vector2.static_add b a) (Vector2.static_add a b) = true /\
     Vector2.equals (Vector2.static_mult b a) (Vector2.static_mult a b) = true)
  /\
  (forall ax ay az bx by_ bz : Q,
     let a := Vector3.mk (Num ax) (Num ay) (Num az) in
     let b := Vector3.mk (Num bx) (Num by_) (Num bz) in
     Vector3.equals (Vector3.static_add b a) (Vector3.static_add a b) = true /\
     Vector3.equals (Vector3.static_mult b a) (Vector3.static_mult a b) = true).
Proof.
  split.
  - intros ax ay bx by_. cbv zeta.
    unfold Vector2.equals, Vector2.static_add, Vector2.static_mult,
      Vector2.add, Vector2.mult, Vector2.new, Vector2.parseParameters.
    cbn [Point.x Point.y Vector2.x Vector2.y JS.add JS.mul].
    split; apply andb_true_iff; split; apply eqb_Qeq; ring.
  - intros ax ay az bx by_ bz. cbv zeta.
    unfold Vector3.equals, Vector3.static_add, Vector3.static_mult,
      Vector3.add, Vector3.mult, Vector3.new, Vector3.parseParameters,
      Vector3.zAsNumber.
    cbn [Point.x Point.y Point.z Vector3.x Vector3.y Vector3.z JS.add JS.mul].
    split; repeat (apply andb_true_iff; split); apply eqb_Qeq; ring.
Qed.


(** ** The alpha a numeric constructor call stores *)

Lemma clamp_finite v M :
  0 <= M -> v <> NaN ->
  exists q, clamp v (ofZ M) clampMinDefault = Num q /\
            (0 <= q)%Q /\ (q <= inject_Z M)%Q.
Proof.
  intros HM Hv.
  destruct (clamp_within v M HM) as [Hnan | Hok]; [| exact Hok].
  exfalso. unfold clamp, clampMinDefault, ofZ in Hnan.
  destruct v as [ | | p | ]; [contradiction | discriminate | |].
  - destruct (min_Num p (inject_Z M)) as (m & Em & _). rewrite Em in Hnan.
    destruct (max_Num (inject_Z 0) m) as (q & Eq' & _).
    rewrite Eq' in Hnan. discriminate.
  - change (JS.min Infinity (Num (inject_Z M))) with (Num (inject_Z M))
      in Hnan.
    destruct (max_Num (inject_Z 0) (inject_Z M)) as (q & Eq' & _).
    rewrite Eq' in Hnan. discriminate.
Qed.

Lemma orDefault_not_NaN x d : d <> NaN -> Color.orDefault x d <> NaN.
Proof.
  intros Hd. unfold Color.orDefault. destruct x as [v |]; [| exact Hd].
  destruct v as [ | | q | ]; cbn [JS.falsy]; try exact Hd; try discriminate.
  destruct (Qeq_bool q 0); [exact Hd | discriminate].
Qed.

(** X19.  A constructor call with a numeric first argument stores an alpha
    that is a finite number between 0 and 255, never [NaN], under either
    colour mode; it stores 255 when the alpha argument is missing, zero or
    [NaN]. *)
Theorem numeric_constructor_alpha (NumberToString : Q -> string)
    (colorMode : ColorMode) (n : number) (b c alpha : optional number) :
  exists this q,
    Color.new NumberToString colorMode (Number n) b c alpha = Normal this /\
    Color.get_alpha this = Num q /\ (0 <= q)%Q /\ (q <= 255)%Q /\
    (JS.falsy alpha = true -> Color.get_alpha this = ofZ 255).
Proof.
  unfold Color.new. rewrite numeric_input_resolves.
  assert (H255 : ofZ 255 <> NaN) by discriminate.
  destruct (clamp_finite (Color.orDefault alpha (ofZ 255)) 255 ltac:(lia)
              (orDefault_not_NaN alpha _ H255)) as (q & Eq' & Hq0 & Hq1).
  assert (Hfalsy : JS.falsy alpha = true ->
                   clamp (Color.orDefault alpha (ofZ 255)) (ofZ 255)
                     clampMinDefault = ofZ 255).
  { intros Hf. unfold Color.orDefault. destruct alpha as [v |].
    - rewrite Hf. apply clamp_ofZ. lia.
    - apply clamp_ofZ. lia. }
  eexists. exists q. split; [reflexivity |].
  unfold Color.get_alpha.
  destruct colorMode;
    unfold Color.getColorValueFromRGB, Color.getColorValueFromHSL;
    cbv zeta; try destruct (Color.sextant _ _ _) as [[r g] bl];
    cbn [Color.a ColorObject.alpha];
    (split; [exact Eq' |]); (split; [exact Hq0 |]);
    (split; [exact Hq1 | exact Hfalsy]).
Qed.
